(** * A GDB-backed DAP bridge: model and properties

    Shallow embedding of [deployments/docker/runtimes/rust-gdb-dap-server.py]
    (class [GDBDAPServer]).  The development has two parts: the model
    (Python text, JSON values, the frame codec, the server's methods as
    state-and-exception passing functions, and the handler/watcher threads
    as resumptions), and then the properties proved about it. *)

From Stdlib Require Import List ZArith NArith Lia Bool Ascii String.
From Stdlib Require Strings.Byte.
Import ListNotations.

Set Implicit Arguments.
Set Warnings "-register-all".

(* ================================================================= *)
(** * Part I: the model *)
(* ================================================================= *)

(** ** Python text and bytes *)

(** A Python [str] is a sequence of Unicode code points; [bytes] is a
    sequence of octets.  [len] of either is [List.length]. *)
Definition pystr := list N.
Definition bytes := list Byte.byte.

(** A literal of the source, written with the ASCII text it has there. *)
Definition lit (s : string) : pystr := map N_of_ascii (list_ascii_of_string s).

(** The two characters a Rocq string literal cannot hold conveniently. *)
Definition CR : N := 13%N.
Definition LF : N := 10%N.
Definition DQUOTE : N := 34%N.

Definition pystr_eqb (a b : pystr) : bool :=
  if list_eq_dec N.eq_dec a b then true else false.

(** [s.startswith(p)], returning what follows the prefix. *)
Fixpoint strip_prefix (p s : pystr) : option pystr :=
  match p, s with
  | [], _ => Some s
  | _ :: _, [] => None
  | c :: p', d :: s' => if (c =? d)%N then strip_prefix p' s' else None
  end.

(** [needle in s] on two strings. *)
Fixpoint contains (needle s : pystr) : bool :=
  match strip_prefix needle s with
  | Some _ => true
  | None => match s with
            | [] => false
            | _ :: s' => contains needle s'
            end
  end.

(** [sep.join(parts)] *)
Fixpoint join (sep : pystr) (parts : list pystr) : pystr :=
  match parts with
  | [] => []
  | [p] => p
  | p :: ps => p ++ sep ++ join sep ps
  end.

(** [s.lower()] on the ASCII letters.  Of the code points outside ASCII
    none lowers to one of the letters d, o, n, e, the only ones the server
    looks for after lowering, so they are left as they are. *)
Definition lower_char (c : N) : N :=
  if ((65 <=? c) && (c <=? 90))%N then (c + 32)%N else c.
Definition lower (s : pystr) : pystr := map lower_char s.

(** The decimal digits: [\d] in the header pattern and what [int] reads.
    (Python's [\d] and [int] also take the decimal digits of other
    scripts; the frames studied here are ASCII.) *)
Definition is_digit (c : N) : bool := ((48 <=? c) && (c <=? 57))%N.

Fixpoint span_digits (s : pystr) : pystr * pystr :=
  match s with
  | c :: s' => if is_digit c
               then let (ds, rest) := span_digits s' in (c :: ds, rest)
               else ([], s)
  | [] => ([], [])
  end.

(** [int(ds)] for a run of decimal digits. *)
Definition int_of_digits (ds : pystr) : N :=
  fold_left (fun acc d => (acc * 10 + (d - 48))%N) ds 0%N.

(** [str(n)] for a natural number: decimal, no leading zero, ["0"] for 0. *)
Fixpoint digits_aux (fuel : nat) (n : N) (acc : pystr) : pystr :=
  match fuel with
  | O => acc
  | S f => let acc' := (48 + n mod 10)%N :: acc in
           if (n <? 10)%N then acc' else digits_aux f (n / 10)%N acc'
  end.
Definition str_of_N (n : N) : pystr :=
  digits_aux (S (N.to_nat (N.log2 n))) n [].

(** [str(z)] for an [int]. *)
Definition str_of_Z (z : Z) : pystr :=
  if (z <? 0)%Z then lit "-" ++ str_of_N (Z.abs_N z) else str_of_N (Z.to_N z).

(** *** UTF-8 *)

Definition byte_of (n : N) : Byte.byte :=
  match Byte.of_N n with Some b => b | None => Byte.x00 end.

(** [chr(c).encode('utf-8')]; [None] is [UnicodeEncodeError] (a lone
    surrogate; code points end at U+10FFFF). *)
Definition utf8_encode_char (c : N) : option bytes :=
  if (c <? 128)%N then Some [byte_of c]
  else if (c <? 2048)%N then
    Some [byte_of (192 + c / 64); byte_of (128 + c mod 64)]
  else if (c <? 65536)%N then
    if ((55296 <=? c) && (c <=? 57343))%N then None
    else Some [byte_of (224 + c / 4096); byte_of (128 + (c / 64) mod 64);
               byte_of (128 + c mod 64)]
  else if (c <? 1114112)%N then
    Some [byte_of (240 + c / 262144); byte_of (128 + (c / 4096) mod 64);
          byte_of (128 + (c / 64) mod 64); byte_of (128 + c mod 64)]
  else None.

(** [s.encode('utf-8')] *)
Fixpoint utf8_encode (s : pystr) : option bytes :=
  match s with
  | [] => Some []
  | c :: s' =>
      match utf8_encode_char c, utf8_encode s' with
      | Some bs, Some rest => Some (bs ++ rest)
      | _, _ => None
      end
  end.

Definition is_cont (b : N) : bool := ((128 <=? b) && (b <? 192))%N.

(** [data.decode('utf-8')], strict: [None] is [UnicodeDecodeError]
    (a stray or missing continuation byte, an overlong form, a surrogate,
    a value past U+10FFFF, a sequence cut by the end of the data). *)
Fixpoint utf8_decode_N (bs : list N) : option pystr :=
  match bs with
  | [] => Some []
  | b0 :: r0 =>
      if (b0 <? 128)%N then option_map (cons b0) (utf8_decode_N r0)
      else if (b0 <? 194)%N then None
      else if (b0 <? 224)%N then
        match r0 with
        | b1 :: r1 =>
            if is_cont b1
            then option_map (cons ((b0 - 192) * 64 + (b1 - 128))%N)
                            (utf8_decode_N r1)
            else None
        | [] => None
        end
      else if (b0 <? 240)%N then
        match r0 with
        | b1 :: b2 :: r2 =>
            let c := ((b0 - 224) * 4096 + (b1 - 128) * 64 + (b2 - 128))%N in
            if is_cont b1 && is_cont b2 && (2048 <=? c)%N
               && negb ((55296 <=? c) && (c <=? 57343))%N
            then option_map (cons c) (utf8_decode_N r2)
            else None
        | _ => None
        end
      else if (b0 <? 245)%N then
        match r0 with
        | b1 :: b2 :: b3 :: r3 =>
            let c := ((b0 - 240) * 262144 + (b1 - 128) * 4096
                      + (b2 - 128) * 64 + (b3 - 128))%N in
            if is_cont b1 && is_cont b2 && is_cont b3
               && (65536 <=? c)%N && (c <? 1114112)%N
            then option_map (cons c) (utf8_decode_N r3)
            else None
        | _ => None
        end
      else None
  end.

Definition utf8_decode (data : bytes) : option pystr :=
  utf8_decode_N (map Byte.to_N data).

(** ** JSON values and [json.dumps] *)

(** What [json.loads] builds and [json.dumps] prints, floats apart
    (a [dict] keeps its insertion order: an association list). *)
Inductive json : Type :=
| JNull
| JBool (b : bool)
| JInt (z : Z)
| JStr (s : pystr)
| JList (vs : list json)
| JDict (kvs : list (pystr * json)).

Definition hex_digit (n : N) : N :=
  if (n <? 10)%N then (48 + n)%N else (87 + n)%N.

(** ['\\u{0:04x}'.format(n)] *)
Definition u_escape (n : N) : pystr :=
  lit "\u" ++ [hex_digit ((n / 4096) mod 16); hex_digit ((n / 256) mod 16);
               hex_digit ((n / 16) mod 16); hex_digit (n mod 16)].

(** The replacement [json.encoder.py_encode_basestring_ascii] makes for
    one character: the short escapes of [ESCAPE_DCT], printable ASCII as
    it is, everything else as [\uXXXX] (a surrogate pair past U+FFFF). *)
Definition escape_char (c : N) : pystr :=
  if (c =? 34)%N then [92; 34]%N
  else if (c =? 92)%N then [92; 92]%N
  else if (c =? 8)%N then lit "\b"
  else if (c =? 12)%N then lit "\f"
  else if (c =? 10)%N then lit "\n"
  else if (c =? 13)%N then lit "\r"
  else if (c =? 9)%N then lit "\t"
  else if ((32 <=? c) && (c <=? 126))%N then [c]
  else if (c <? 65536)%N then u_escape c
  else let n := (c - 65536)%N in
       u_escape (55296 + (n / 1024) mod 1024) ++ u_escape (56320 + n mod 1024).

Definition quote (s : pystr) : pystr :=
  DQUOTE :: flat_map escape_char s ++ [DQUOTE].

(** [json.dumps(v)] with its defaults: [ensure_ascii=True], separators
    [", "] and [": "], no indentation, keys in insertion order. *)
Fixpoint json_dumps (v : json) : pystr :=
  match v with
  | JNull => lit "null"
  | JBool true => lit "true"
  | JBool false => lit "false"
  | JInt z => str_of_Z z
  | JStr s => quote s
  | JList vs => lit "[" ++ join (lit ", ") (map json_dumps vs) ++ lit "]"
  | JDict kvs =>
      lit "{" ++ join (lit ", ")
                      (map (fun kv => quote (fst kv) ++ lit ": " ++ json_dumps (snd kv)) kvs)
              ++ lit "}"
  end.

(** ** The frame codec *)

Definition CRLFCRLF : pystr := [CR; LF; CR; LF].

(** [send_message], lines 117-118: the text handed to [encode]. *)
Definition frame_text (msg : json) : pystr :=
  let content := json_dumps msg in
  lit "Content-Length: " ++ str_of_N (N.of_nat (List.length content)) ++ CRLFCRLF ++ content.

(** [(header + content).encode('utf-8')], line 120. *)
Definition encode (msg : json) : option bytes := utf8_encode (frame_text msg).

(** [re.match(r'Content-Length: (\d+)\r\n\r\n', buffer)], reduced to what
    the caller uses: [int(match.group(1))] and [match.end()].  The digit
    run is greedy, and no shorter run can match since a digit is not a
    carriage return. *)
Definition match_header (buffer : pystr) : option (N * nat) :=
  match strip_prefix (lit "Content-Length: ") buffer with
  | None => None
  | Some rest =>
      let (ds, rest') := span_digits rest in
      match ds with
      | [] => None
      | _ :: _ =>
          match strip_prefix CRLFCRLF rest' with
          | None => None
          | Some _ => Some (int_of_digits ds, (16 + List.length ds + 4)%nat)
          end
      end
  end.

(** One turn of the inner loop of [handle_client], lines 64-75, up to the
    dispatch: [None] is either [break]; [Some (message, buffer')] is the
    body sliced out and the buffer left. *)
Definition decode_frame (buffer : pystr) : option (pystr * pystr) :=
  match match_header buffer with
  | None => None
  | Some (content_length, header_length) =>
      if (N.of_nat (List.length buffer) <? N.of_nat header_length + content_length)%N
      then None
      else
        let n := N.to_nat content_length in
        Some (firstn n (skipn header_length buffer),
              skipn (header_length + n) buffer)
  end.

(** ** Values of the dynamic language *)

(** [bool(v)], as [if v:] tests it. *)
Definition py_truthy (v : json) : bool :=
  match v with
  | JNull => false
  | JBool b => b
  | JInt z => negb (z =? 0)%Z
  | JStr s => match s with [] => false | _ => true end
  | JList vs => match vs with [] => false | _ => true end
  | JDict kvs => match kvs with [] => false | _ => true end
  end.

(** The exceptions the server can meet, all subclasses of [Exception];
    [text] is [str(e)]. *)
Inductive exn_kind : Type :=
| OSError | KeyError | AttributeError | TypeError | ValueError.

Record exn : Type := mkExn { kind : exn_kind; text : pystr }.

Inductive result (A : Type) : Type :=
| Ok (a : A)
| Raise (e : exn).
Arguments Ok {A} a.
Arguments Raise {A} e.

Fixpoint assoc (k : pystr) (kvs : list (pystr * json)) : option json :=
  match kvs with
  | [] => None
  | (k', v) :: rest => if pystr_eqb k k' then Some v else assoc k rest
  end.

(** [d.get(k, default)]: only a [dict] has the method. *)
Definition py_get (d : json) (k : pystr) (default : json) : result json :=
  match d with
  | JDict kvs => Ok (match assoc k kvs with Some v => v | None => default end)
  | _ => Raise (mkExn AttributeError (lit "object has no attribute 'get'"))
  end.

(** [d[k]] for a string key [k]. *)
Definition py_index (d : json) (k : pystr) : result json :=
  match d with
  | JDict kvs =>
      match assoc k kvs with
      | Some v => Ok v
      | None => Raise (mkExn KeyError (lit "'" ++ k ++ lit "'"))
      end
  | _ => Raise (mkExn TypeError (lit "indices must be integers or the object is not subscriptable"))
  end.

(** [a == b] against the literal [1], line 287: [True == 1] holds too. *)
Definition py_eq_one (v : json) : bool :=
  match v with
  | JInt z => (z =? 1)%Z
  | JBool b => b
  | _ => false
  end.

(** ** The server object and the world around it *)

(** The debugger subprocess behind a [Popen] handle, as the server can
    observe it. *)
Record proc : Type := mkProc {
  pid : Z;
  (** the lines [stdout.readline()] will still return, in order; after
      them the pipe is at its end and [readline] returns [""] *)
  p_stdout : list pystr;
  (** the command lines written to [stdin] so far, oldest first *)
  p_stdin : list pystr;
  (** [Some k]: the process exits by itself once it has taken [k] more
      command lines; [None]: it runs until it is terminated *)
  p_lifespan : option nat;
  (** [terminate()] was called on the handle *)
  p_terminated : bool
}.

Definition alive (p : proc) : bool :=
  negb (p_terminated p)
  && match p_lifespan p with Some O => false | _ => true end.

Inductive popen_result : Type :=
| Spawned (p : proc)
| SpawnFailed (e : exn).

(** The accepted client connection: its number, and whether [close()] was
    called on it. *)
Record socket : Type := mkSocket { conn : nat; closed : bool }.

Record state : Type := mkState {
  (** fields of [GDBDAPServer], as [__init__] lists them *)
  port : Z;
  program : pystr;
  gdb_process : option proc;
  client_socket : option socket;
  seq : Z;
  running : bool;
  initialized : bool;
  breakpoints : list (pystr * list Z);
  stopped_thread : Z;
  (** the world: subprocesses no handle refers to any more *)
  orphans : list proc;
  (** what the successive calls of [subprocess.Popen] will do *)
  popen_next : list popen_result;
  (** for the successive calls of [_read_gdb_until_prompt], how many more
      turns of its loop fit into the timeout after the first *)
  timeouts : list nat;
  (** for the successive calls of [sendall] on an open socket: [Some t] is
      an [OSError] with text [t], [None] (and the end of the list) delivery *)
  send_faults : list (option pystr);
  (** the frames delivered to clients, oldest first, each with the
      connection it went out on *)
  wire : list (nat * bytes);
  (** the number of watcher threads started *)
  watchers : nat
}.

(** [GDBDAPServer(port, program)], lines 21-31, in a given world. *)
Definition init_server (port0 : Z) (program0 : pystr)
    (spawns : list popen_result) (waits : list nat)
    (faults : list (option pystr)) : state :=
  mkState port0 program0 None None 0%Z true false [] 1%Z
          [] spawns waits faults [] 0.

Definition set_gdb_process (v : option proc) (s : state) : state :=
  mkState (port s) (program s) v (client_socket s) (seq s) (running s)
          (initialized s) (breakpoints s) (stopped_thread s) (orphans s)
          (popen_next s) (timeouts s) (send_faults s) (wire s) (watchers s).
Definition set_client_socket (v : option socket) (s : state) : state :=
  mkState (port s) (program s) (gdb_process s) v (seq s) (running s)
          (initialized s) (breakpoints s) (stopped_thread s) (orphans s)
          (popen_next s) (timeouts s) (send_faults s) (wire s) (watchers s).
Definition set_seq (v : Z) (s : state) : state :=
  mkState (port s) (program s) (gdb_process s) (client_socket s) v (running s)
          (initialized s) (breakpoints s) (stopped_thread s) (orphans s)
          (popen_next s) (timeouts s) (send_faults s) (wire s) (watchers s).
Definition set_running (v : bool) (s : state) : state :=
  mkState (port s) (program s) (gdb_process s) (client_socket s) (seq s) v
          (initialized s) (breakpoints s) (stopped_thread s) (orphans s)
          (popen_next s) (timeouts s) (send_faults s) (wire s) (watchers s).
Definition set_orphans (v : list proc) (s : state) : state :=
  mkState (port s) (program s) (gdb_process s) (client_socket s) (seq s)
          (running s) (initialized s) (breakpoints s) (stopped_thread s) v
          (popen_next s) (timeouts s) (send_faults s) (wire s) (watchers s).
Definition set_popen_next (v : list popen_result) (s : state) : state :=
  mkState (port s) (program s) (gdb_process s) (client_socket s) (seq s)
          (running s) (initialized s) (breakpoints s) (stopped_thread s)
          (orphans s) v (timeouts s) (send_faults s) (wire s) (watchers s).
Definition set_timeouts (v : list nat) (s : state) : state :=
  mkState (port s) (program s) (gdb_process s) (client_socket s) (seq s)
          (running s) (initialized s) (breakpoints s) (stopped_thread s)
          (orphans s) (popen_next s) v (send_faults s) (wire s) (watchers s).
Definition set_send_faults (v : list (option pystr)) (s : state) : state :=
  mkState (port s) (program s) (gdb_process s) (client_socket s) (seq s)
          (running s) (initialized s) (breakpoints s) (stopped_thread s)
          (orphans s) (popen_next s) (timeouts s) v (wire s) (watchers s).
Definition set_wire (v : list (nat * bytes)) (s : state) : state :=
  mkState (port s) (program s) (gdb_process s) (client_socket s) (seq s)
          (running s) (initialized s) (breakpoints s) (stopped_thread s)
          (orphans s) (popen_next s) (timeouts s) (send_faults s) v (watchers s).
Definition set_watchers (v : nat) (s : state) : state :=
  mkState (port s) (program s) (gdb_process s) (client_socket s) (seq s)
          (running s) (initialized s) (breakpoints s) (stopped_thread s)
          (orphans s) (popen_next s) (timeouts s) (send_faults s) (wire s) v.

(** ** State and exceptions *)

(** A method body: it runs in a state, and returns or raises in a new one. *)
Definition M (A : Type) : Type := state -> result A * state.

Definition ret {A} (a : A) : M A := fun s => (Ok a, s).
Definition raise {A} (e : exn) : M A := fun s => (Raise e, s).
Definition bind {A B} (m : M A) (k : A -> M B) : M B :=
  fun s => match m s with
           | (Ok a, s') => k a s'
           | (Raise e, s') => (Raise e, s')
           end.
Definition lift {A} (r : result A) : M A := fun s => (r, s).

(** [try: m  except Exception as e: h e] *)
Definition try_except {A} (m : M A) (h : exn -> M A) : M A :=
  fun s => match m s with
           | (Ok a, s') => (Ok a, s')
           | (Raise e, s') => h e s'
           end.

(** [try: m  finally: f] *)
Definition try_finally {A} (m : M A) (f : M unit) : M A :=
  fun s => match m s with
           | (r, s') => match f s' with
                        | (Ok _, s'') => (r, s'')
                        | (Raise e, s'') => (Raise e, s'')
                        end
           end.

Declare Scope py_scope.
Delimit Scope py_scope with py.
Notation "x <- m ;; k" := (bind m (fun x => k))
  (at level 61, m at next level, right associativity) : py_scope.
Notation "m ;; k" := (bind m (fun _ => k))
  (at level 61, right associativity) : py_scope.
Open Scope py_scope.

Definition get {A} (f : state -> A) : M A := fun s => (Ok (f s), s).
Definition modify (f : state -> state) : M unit := fun s => (Ok tt, f s).
Definition when (b : bool) (m : M unit) : M unit := if b then m else ret tt.

(** ** The methods of [GDBDAPServer] *)

Definition incr_seq : M unit := modify (fun s => set_seq (seq s + 1)%Z s).

(** [self.client_socket.sendall(data)] *)
Definition sendall (data : bytes) : M unit :=
  fun s =>
    match client_socket s with
    | None =>
        (Raise (mkExn AttributeError
                      (lit "'NoneType' object has no attribute 'sendall'")), s)
    | Some sk =>
        if closed sk
        then (Raise (mkExn OSError (lit "[Errno 9] Bad file descriptor")), s)
        else match send_faults s with
             | Some t :: rest => (Raise (mkExn OSError t), set_send_faults rest s)
             | None :: rest =>
                 (Ok tt, set_wire (wire s ++ [(conn sk, data)]) (set_send_faults rest s))
             | [] => (Ok tt, set_wire (wire s ++ [(conn sk, data)]) s)
             end
    end.

(** [send_message], lines 115-122.  The handler of its [except] prints
    to standard error, which is not part of the state. *)
Definition send_message (msg : json) : M unit :=
  try_except
    (match encode msg with
     | Some data => sendall data
     | None => raise (mkExn ValueError (lit "'utf-8' codec can't encode character"))
     end)
    (fun _ => ret tt).

(** The dictionary display of lines 90-100: it reads [self.seq] after the
    increment of line 89. *)
Definition build_response (request body : json) (success : bool)
    (message : pystr) : M json :=
  n <- get seq ;;
  request_seq <- lift (py_index request (lit "seq")) ;;
  command <- lift (py_index request (lit "command")) ;;
  ret (JDict ([(lit "seq", JInt n);
               (lit "type", JStr (lit "response"));
               (lit "request_seq", request_seq);
               (lit "command", command);
               (lit "success", JBool success)]
              ++ (if py_truthy body then [(lit "body", body)] else [])
              ++ (match message with
                  | [] => []
                  | _ :: _ => [(lit "message", JStr message)]
                  end))).

(** [send_response], lines 87-101; [JNull] is the default [body=None]. *)
Definition send_response (request body : json) (success : bool)
    (message : pystr) : M unit :=
  incr_seq ;;
  response <- build_response request body success message ;;
  send_message response.

(** The dictionary display of lines 106-112. *)
Definition build_event (event : pystr) (body : json) : M json :=
  n <- get seq ;;
  ret (JDict ([(lit "seq", JInt n);
               (lit "type", JStr (lit "event"));
               (lit "event", JStr event)]
              ++ (if py_truthy body then [(lit "body", body)] else []))).

(** [send_event], lines 103-113. *)
Definition send_event (event : pystr) (body : json) : M unit :=
  incr_seq ;;
  msg <- build_event event body ;;
  send_message msg.

(** What one more command line does to the subprocess. *)
Definition take_line (command : pystr) (p : proc) : proc :=
  mkProc (pid p) (p_stdout p) (p_stdin p ++ [command ++ [LF]])
         (option_map Nat.pred (p_lifespan p)) (p_terminated p).

(** [_send_gdb_command], lines 365-370.  The write meets a broken pipe
    exactly when the subprocess has exited. *)
Definition _send_gdb_command (command : pystr) : M unit :=
  fun s =>
    match gdb_process s with
    | None => (Ok tt, s)
    | Some p =>
        if alive p
        then (Ok tt, set_gdb_process (Some (take_line command p)) s)
        else (Raise (mkExn OSError (lit "[Errno 32] Broken pipe")), s)
    end.

Definition has_marker (line : pystr) : bool :=
  contains (lit "(gdb)") line || contains (lit "^done") line
  || contains (lit "^error") line.

Definition has_process : M bool :=
  get (fun s => match gdb_process s with Some _ => true | None => false end).

(** [self.gdb_process.stdout.readline()]: the next line, or the empty
    string at the end of the pipe. *)
Definition readline : M pystr :=
  fun s =>
    match gdb_process s with
    | None => (Raise (mkExn AttributeError
                            (lit "'NoneType' object has no attribute 'stdout'")), s)
    | Some p =>
        match p_stdout p with
        | [] => (Ok [], s)
        | line :: rest =>
            (Ok line, set_gdb_process
                        (Some (mkProc (pid p) rest (p_stdin p)
                                      (p_lifespan p) (p_terminated p))) s)
        end
    end.

(** The loop of [_read_gdb_until_prompt], lines 377-388, for the number
    of turns that fit into the timeout. *)
Fixpoint read_turns (turns : nat) (output : list pystr) : M pystr :=
  match turns with
  | O => ret (List.concat output)
  | S t =>
      b <- has_process ;;
      if b then
        r <- try_except (line <- readline ;; ret (Some line))
                        (fun _ => ret None) ;;
        match r with
        | None => ret (List.concat output)
        | Some [] => read_turns t output
        | Some ((_ :: _) as line) =>
            if has_marker line
            then ret (List.concat (output ++ [line]))
            else read_turns t (output ++ [line])
        end
      else read_turns t output
  end.

(** [_read_gdb_until_prompt], lines 372-390: the loop is entered at least
    once, the timeout being five seconds. *)
Definition _read_gdb_until_prompt : M pystr :=
  fun s =>
    match timeouts s with
    | n :: rest => read_turns (S n) [] (set_timeouts rest s)
    | [] => read_turns 1 [] s
    end.

(** [subprocess.Popen(["gdb", "--interpreter=mi", program], ..., cwd=cwd)] *)
Definition Popen (program cwd : json) : M proc :=
  fun s =>
    match popen_next s with
    | Spawned p :: rest => (Ok p, set_popen_next rest s)
    | SpawnFailed e :: rest => (Raise e, set_popen_next rest s)
    | [] => (Raise (mkExn OSError (lit "[Errno 2] No such file or directory: 'gdb'")), s)
    end.

(** The assignment [self.gdb_process = ...] of line 163: a subprocess
    the field referred to before goes on by itself. *)
Definition assign_gdb_process (p : proc) : M unit :=
  modify (fun s =>
            set_gdb_process (Some p)
              match gdb_process s with
              | Some old => set_orphans (orphans s ++ [old]) s
              | None => s
              end).

(** [self.gdb_process.terminate()] *)
Definition terminate : M unit :=
  fun s =>
    match gdb_process s with
    | Some p => (Ok tt, set_gdb_process
                          (Some (mkProc (pid p) (p_stdout p) (p_stdin p)
                                        (p_lifespan p) true)) s)
    | None => (Raise (mkExn AttributeError
                            (lit "'NoneType' object has no attribute 'terminate'")), s)
    end.

(** [self.gdb_process.pid] *)
Definition gdb_pid : M Z :=
  fun s =>
    match gdb_process s with
    | Some p => (Ok (pid p), s)
    | None => (Raise (mkExn AttributeError
                            (lit "'NoneType' object has no attribute 'pid'")), s)
    end.

(** [threading.Thread(target=self._wait_for_stop).start()], seen from the
    thread that starts it. *)
Definition start_watcher : M unit :=
  modify (fun s => set_watchers (S (watchers s)) s).

(** Some debugger subprocess started by this server is still running. *)
Definition debugger_running (s : state) : bool :=
  existsb alive (orphans s)
  || match gdb_process s with Some p => alive p | None => false end.

(** [for x in v]: the elements of a list, the keys of a dict, the
    characters of a string; nothing else of JSON can be iterated. *)
Definition py_iter (v : json) : result (list json) :=
  match v with
  | JList vs => Ok vs
  | JDict kvs => Ok (map (fun kv => JStr (fst kv)) kvs)
  | JStr s => Ok (map (fun c => JStr [c]) s)
  | _ => Raise (mkExn TypeError (lit "object is not iterable"))
  end.

Definition is_str (v : json) (s : pystr) : bool :=
  match v with JStr t => pystr_eqb t s | _ => false end.

(** The groups of one match of the stack-frame pattern, line 257, and of
    the variable pattern, line 298. *)
Record frame_match : Type := mkFrameMatch {
  fm_level : pystr; fm_addr : pystr; fm_func : pystr; fm_file : pystr;
  fm_fullname : option pystr; fm_line : option pystr
}.
Record var_match : Type := mkVarMatch {
  vm_name : pystr; vm_type : option pystr; vm_value : pystr
}.

(** [x or default] for an optional group of a match. *)
Definition group_or (g : option pystr) (default : pystr) : pystr :=
  match g with
  | Some (c :: r) => c :: r
  | _ => default
  end.

Section Handlers.

(** What the Python library computes and the server only passes on. *)

(** [str(v)] of a list or a dictionary (their [repr]) *)
Variable py_repr : json -> pystr.
(** [re.finditer(frame_pattern, output)], [re.finditer(var_pattern, output)]
    and [re.search] for the value pattern of line 341, with its group 1 *)
Variable re_frames : pystr -> list frame_match.
Variable re_vars : pystr -> list var_match.
Variable re_value : pystr -> option pystr.
(** [json.loads(text)]; [None] is [json.JSONDecodeError] *)
Variable json_loads : pystr -> option json.

(** [str(v)], as an f-string formats a decoded JSON value. *)
Definition py_str (v : json) : pystr :=
  match v with
  | JNull => lit "None"
  | JBool true => lit "True"
  | JBool false => lit "False"
  | JInt z => str_of_Z z
  | JStr s => s
  | JList _ | JDict _ => py_repr v
  end.

(** [handle_initialize], lines 139-153 *)
Definition handle_initialize (request args : json) : M unit :=
  send_response request
    (JDict [(lit "supportsConfigurationDoneRequest", JBool true);
            (lit "supportsSetVariable", JBool true);
            (lit "supportsConditionalBreakpoints", JBool true);
            (lit "supportsHitConditionalBreakpoints", JBool true);
            (lit "supportsEvaluateForHovers", JBool true);
            (lit "supportsFunctionBreakpoints", JBool true);
            (lit "supportsStepBack", JBool false);
            (lit "supportsRestartFrame", JBool false);
            (lit "supportTerminateDebuggee", JBool true);
            (lit "supportsTerminateRequest", JBool true)])
    true [] ;;
  send_event (lit "initialized") JNull.

Definition stopped_body (reason : pystr) : json :=
  JDict [(lit "reason", JStr reason);
         (lit "threadId", JInt 1);
         (lit "allThreadsStopped", JBool true)].

(** The [try] block of [handle_launch], lines 163-199 *)
Definition launch_body (request program cwd stop_on_entry : json) : M unit :=
  p <- Popen program cwd ;;
  assign_gdb_process p ;;
  _ <- _read_gdb_until_prompt ;;
  when (py_truthy stop_on_entry)
       (_send_gdb_command (lit "-break-insert main") ;;
        _ <- _read_gdb_until_prompt ;;
        ret tt) ;;
  _send_gdb_command (lit "-exec-run") ;;
  output <- _read_gdb_until_prompt ;;
  send_response request JNull true [] ;;
  n <- gdb_pid ;;
  send_event (lit "process")
             (JDict [(lit "name", program);
                     (lit "systemProcessId", JInt n);
                     (lit "isLocalProcess", JBool true);
                     (lit "startMethod", JStr (lit "launch"))]) ;;
  when (contains (lit "*stopped") output)
       (send_event (lit "stopped")
                   (stopped_body (if py_truthy stop_on_entry
                                  then lit "entry" else lit "breakpoint"))).

(** [handle_launch], lines 155-202 *)
Definition handle_launch (request args : json) : M unit :=
  default_program <- get program ;;
  program <- lift (py_get args (lit "program") (JStr default_program)) ;;
  cwd <- lift (py_get args (lit "cwd") (JStr (lit "/tmp/project"))) ;;
  stop_on_entry <- lift (py_get args (lit "stopOnEntry") (JBool true)) ;;
  try_except (launch_body request program cwd stop_on_entry)
             (fun e => send_response request JNull false (text e)).

(** The command of lines 221-223 for one requested breakpoint. *)
Definition break_insert_cmd (path line condition : json) : pystr :=
  let cmd := lit "-break-insert " ++ py_str path ++ lit ":" ++ py_str line in
  if py_truthy condition
  then cmd ++ lit " -c " ++ [DQUOTE] ++ py_str condition ++ [DQUOTE]
  else cmd.

(** The loop of lines 217-234, from index [i] on. *)
Fixpoint install_breakpoints (path : json) (i : Z) (bps : list json)
    (result_breakpoints : list json) : M (list json) :=
  match bps with
  | [] => ret result_breakpoints
  | bp :: rest =>
      line <- lift (py_get bp (lit "line") JNull) ;;
      condition <- lift (py_get bp (lit "condition") (JStr [])) ;;
      _send_gdb_command (break_insert_cmd path line condition) ;;
      output <- _read_gdb_until_prompt ;;
      let verified := contains (lit "done") (lower output) in
      install_breakpoints path (i + 1)%Z rest
        (result_breakpoints
           ++ [JDict [(lit "id", JInt (i + 1));
                      (lit "verified", JBool verified);
                      (lit "line", line);
                      (lit "source", JDict [(lit "path", path)])]])
  end.

(** [handle_setBreakpoints], lines 204-236 *)
Definition handle_setBreakpoints (request args : json) : M unit :=
  source <- lift (py_get args (lit "source") (JDict [])) ;;
  path <- lift (py_get source (lit "path") (JStr [])) ;;
  breakpoints <- lift (py_get args (lit "breakpoints") (JList [])) ;;
  _send_gdb_command (lit "-break-delete") ;;
  _ <- _read_gdb_until_prompt ;;
  bps <- lift (py_iter breakpoints) ;;
  result_breakpoints <- install_breakpoints path 0 bps [] ;;
  send_response request (JDict [(lit "breakpoints", JList result_breakpoints)])
                true [].

(** [handle_configurationDone], lines 238-240 *)
Definition handle_configurationDone (request args : json) : M unit :=
  send_response request JNull true [].

(** [handle_threads], lines 242-248 *)
Definition handle_threads (request args : json) : M unit :=
  send_response request
    (JDict [(lit "threads",
             JList [JDict [(lit "id", JInt 1); (lit "name", JStr (lit "main"))]])])
    true [].

Definition frame_json (m : frame_match) : json :=
  JDict [(lit "id", JInt (Z.of_N (int_of_digits (fm_level m))));
         (lit "name", JStr (fm_func m));
         (lit "source", JDict [(lit "path", JStr (group_or (fm_fullname m) (fm_file m)));
                               (lit "name", JStr (fm_file m))]);
         (lit "line", JInt (match fm_line m with
                            | Some (c :: r) => Z.of_N (int_of_digits (c :: r))
                            | _ => 0
                            end));
         (lit "column", JInt 0)].

(** [handle_stackTrace], lines 250-271 *)
Definition handle_stackTrace (request args : json) : M unit :=
  _send_gdb_command (lit "-stack-list-frames") ;;
  output <- _read_gdb_until_prompt ;;
  let frames := map frame_json (re_frames output) in
  send_response request
    (JDict [(lit "stackFrames", JList frames);
            (lit "totalFrames", JInt (Z.of_nat (List.length frames)))])
    true [].

(** [handle_scopes], lines 273-281 *)
Definition handle_scopes (request args : json) : M unit :=
  _ <- lift (py_get args (lit "frameId") (JInt 0)) ;;
  send_response request
    (JDict [(lit "scopes",
             JList [JDict [(lit "name", JStr (lit "Locals"));
                           (lit "variablesReference", JInt 1);
                           (lit "expensive", JBool false)];
                    JDict [(lit "name", JStr (lit "Arguments"));
                           (lit "variablesReference", JInt 2);
                           (lit "expensive", JBool false)]])])
    true [].

Definition var_json (m : var_match) : json :=
  JDict [(lit "name", JStr (vm_name m));
         (lit "value", JStr (vm_value m));
         (lit "type", JStr (group_or (vm_type m) (lit "unknown")));
         (lit "variablesReference", JInt 0)].

(** [handle_variables], lines 283-308 *)
Definition handle_variables (request args : json) : M unit :=
  ref <- lift (py_get args (lit "variablesReference") (JInt 0)) ;;
  _send_gdb_command (if py_eq_one ref
                     then lit "-stack-list-locals --all-values"
                     else lit "-stack-list-arguments --all-values") ;;
  output <- _read_gdb_until_prompt ;;
  send_response request
    (JDict [(lit "variables", JList (map var_json (re_vars output)))])
    true [].

(** [handle_continue], lines 310-314 *)
Definition handle_continue (request args : json) : M unit :=
  _send_gdb_command (lit "-exec-continue") ;;
  start_watcher ;;
  send_response request (JDict [(lit "allThreadsContinued", JBool true)]) true [].

(** [handle_next], [handle_stepIn], [handle_stepOut], lines 316-332 *)
Definition handle_step (command : pystr) (request args : json) : M unit :=
  _send_gdb_command command ;;
  start_watcher ;;
  send_response request JNull true [].
Definition handle_next := handle_step (lit "-exec-next").
Definition handle_stepIn := handle_step (lit "-exec-step").
Definition handle_stepOut := handle_step (lit "-exec-finish").

(** [handle_evaluate], lines 334-347 *)
Definition handle_evaluate (request args : json) : M unit :=
  expression <- lift (py_get args (lit "expression") (JStr [])) ;;
  _send_gdb_command (lit "-data-evaluate-expression " ++ [DQUOTE]
                     ++ py_str expression ++ [DQUOTE]) ;;
  output <- _read_gdb_until_prompt ;;
  let value := match re_value output with
               | Some v => v
               | None => lit "undefined"
               end in
  send_response request
    (JDict [(lit "result", JStr value); (lit "variablesReference", JInt 0)])
    true [].

(** [handle_disconnect], lines 349-355 *)
Definition handle_disconnect (request args : json) : M unit :=
  b <- has_process ;;
  when b (_send_gdb_command (lit "-gdb-exit") ;; terminate) ;;
  modify (set_running false) ;;
  send_response request JNull true [].

(** [handle_terminate], lines 357-363 *)
Definition handle_terminate (request args : json) : M unit :=
  b <- has_process ;;
  when b (_send_gdb_command (lit "-exec-abort") ;;
          _send_gdb_command (lit "-gdb-exit") ;;
          terminate) ;;
  send_response request JNull true [].

(** Calling a bound method that takes fewer arguments. *)
Definition wrong_arity (request args : json) : M unit :=
  raise (mkExn TypeError (lit "takes fewer positional arguments than were given")).

(** [getattr(self, f"handle_{command}", None)], line 132: every
    attribute of the object whose name starts with [handle_]. *)
Definition handler_table : list (pystr * (json -> json -> M unit)) :=
  [(lit "client", wrong_arity);
   (lit "dap_message", wrong_arity);
   (lit "initialize", handle_initialize);
   (lit "launch", handle_launch);
   (lit "setBreakpoints", handle_setBreakpoints);
   (lit "configurationDone", handle_configurationDone);
   (lit "threads", handle_threads);
   (lit "stackTrace", handle_stackTrace);
   (lit "scopes", handle_scopes);
   (lit "variables", handle_variables);
   (lit "continue", handle_continue);
   (lit "next", handle_next);
   (lit "stepIn", handle_stepIn);
   (lit "stepOut", handle_stepOut);
   (lit "evaluate", handle_evaluate);
   (lit "disconnect", handle_disconnect);
   (lit "terminate", handle_terminate)].

Fixpoint getattr_handler (name : pystr)
    (table : list (pystr * (json -> json -> M unit)))
  : option (json -> json -> M unit) :=
  match table with
  | [] => None
  | (n, h) :: rest => if pystr_eqb name n then Some h else getattr_handler name rest
  end.

(** [handle_dap_message], lines 124-137 *)
Definition handle_dap_message (message : json) : M unit :=
  msg_type <- lift (py_get message (lit "type") JNull) ;;
  if is_str msg_type (lit "request")
  then
    command <- lift (py_get message (lit "command") JNull) ;;
    args <- lift (py_get message (lit "arguments") (JDict [])) ;;
    match getattr_handler (py_str command) handler_table with
    | Some handler => handler message args
    | None =>
        send_response message JNull false (lit "Unknown command: " ++ py_str command)
    end
  else ret tt.

(** The inner loop of [handle_client], lines 63-77.  Every frame taken
    shortens the buffer, so [fuel] above its length is never used up. *)
Fixpoint parse_loop (fuel : nat) (buffer : pystr) : M pystr :=
  match fuel with
  | O => ret buffer
  | S f =>
      match decode_frame buffer with
      | None => ret buffer
      | Some (message, buffer') =>
          match json_loads message with
          | None => raise (mkExn ValueError (lit "Expecting value"))
          | Some v => handle_dap_message v ;; parse_loop f buffer'
          end
      end
  end.

(** The outer loop of [handle_client], lines 55-77, over what the
    successive calls of [recv] return; after them the peer has closed and
    [recv] returns [b""].  It returns the buffer it ends with. *)
Fixpoint recv_loop (chunks : list bytes) (buffer : pystr) : M pystr :=
  r <- get running ;;
  if r then
    match chunks with
    | [] => ret buffer
    | [] :: _ => ret buffer
    | ((_ :: _) as data) :: rest =>
        match utf8_decode data with
        | None => raise (mkExn ValueError (lit "'utf-8' codec can't decode"))
        | Some text =>
            let buffer1 := buffer ++ text in
            buffer2 <- parse_loop (S (List.length buffer1)) buffer1 ;;
            recv_loop rest buffer2
        end
    end
  else ret buffer.

(** The [finally] block of [handle_client], lines 82-85 *)
Definition close_client : M unit :=
  b <- has_process ;;
  when b terminate ;;
  modify (fun s => match client_socket s with
                   | Some sk => set_client_socket (Some (mkSocket (conn sk) true)) s
                   | None => s
                   end).

(** [handle_client], lines 51-85 *)
Definition handle_client (chunks : list bytes) : M unit :=
  try_finally
    (try_except (_ <- recv_loop chunks [] ;; ret tt) (fun _ => ret tt))
    close_client.

(** The loop of [start], lines 42-49, over the connections that will be
    accepted, each given by what its [recv] calls return. *)
Fixpoint accept_loop (connections : list (list bytes)) (next : nat) : M unit :=
  r <- get running ;;
  if r then
    match connections with
    | [] => ret tt
    | chunks :: rest =>
        ok <- try_except
                (modify (set_client_socket (Some (mkSocket next false))) ;;
                 handle_client chunks ;;
                 ret true)
                (fun _ => ret false) ;;
        if ok then accept_loop rest (S next) else ret tt
    end
  else ret tt.

Definition start (connections : list (list bytes)) : M unit :=
  accept_loop connections 0.

End Handlers.

(** ** The stop watcher *)

Definition STOPPED : pystr := lit "*stopped".
Definition END_STEPPING : pystr :=
  lit "reason=" ++ [DQUOTE] ++ lit "end-stepping-range" ++ [DQUOTE].
Definition EXITED : pystr := lit "reason=" ++ [DQUOTE] ++ lit "exited".

(** The body of the loop of [_wait_for_stop] after the [readline], lines
    396-414; the result tells whether the loop goes on. *)
Definition watch_line (line : pystr) : M bool :=
  if contains STOPPED line then
    if contains END_STEPPING line then
      send_event (lit "stopped") (stopped_body (lit "step")) ;; ret false
    else if contains EXITED line then
      send_event (lit "terminated") JNull ;; ret false
    else
      send_event (lit "stopped") (stopped_body (lit "breakpoint")) ;; ret false
  else if contains (lit "^running") line then ret true
  else if contains (lit "*running") line then ret true
  else ret true.

(** The loop condition [self.running and self.gdb_process], line 394 *)
Definition watching : M bool :=
  r <- get running ;;
  if r then has_process else ret false.

(** [_wait_for_stop], lines 392-414, for at most [turns] turns of its
    loop; the result tells whether the loop is still going on then. *)
Fixpoint _wait_for_stop (turns : nat) : M bool :=
  match turns with
  | O => watching
  | S t =>
      w <- watching ;;
      if w then
        line <- readline ;;
        again <- watch_line line ;;
        if again then _wait_for_stop t else ret false
      else ret false
  end.

(** ** The two threads *)

(** A thread as the sequence of its atomic steps: a step runs one piece
    of a method in the shared state; [Fork] is [Thread(...).start()].
    Each step is at most one statement or call of the source, so every
    schedule of steps is an interleaving the interpreter may produce
    (it switches threads at finer boundaries still). *)
Inductive thread : Type :=
| Done
| Step (A : Type) (m : M A) (k : A -> thread)
| Fork (child : thread) (k : thread).

(** [send_response], statement by statement: line 89, lines 90-100,
    line 101. *)
Definition send_response_t (request body : json) (success : bool)
    (message : pystr) (k : thread) : thread :=
  Step incr_seq (fun _ =>
  Step (build_response request body success message) (fun response =>
  Step (send_message response) (fun _ => k))).

(** [send_event], statement by statement: line 105, lines 106-112,
    line 113. *)
Definition send_event_t (event : pystr) (body : json) (k : thread) : thread :=
  Step incr_seq (fun _ =>
  Step (build_event event body) (fun msg =>
  Step (send_message msg) (fun _ => k))).

(** [_wait_for_stop] as a thread. *)
Fixpoint _wait_for_stop_t (turns : nat) : thread :=
  match turns with
  | O => Done
  | S t =>
      Step watching (fun w =>
      if w then
        Step readline (fun line =>
        if contains STOPPED line then
          if contains END_STEPPING line then
            send_event_t (lit "stopped") (stopped_body (lit "step")) Done
          else if contains EXITED line then
            send_event_t (lit "terminated") JNull Done
          else
            send_event_t (lit "stopped") (stopped_body (lit "breakpoint")) Done
        else _wait_for_stop_t t)
      else Done)
  end.

(** [handle_continue] and the three step handlers as threads; [turns]
    bounds how long the watcher is followed. *)
Definition handle_continue_t (turns : nat) (request : json) : thread :=
  Step (_send_gdb_command (lit "-exec-continue")) (fun _ =>
  Fork (_wait_for_stop_t turns)
       (send_response_t request (JDict [(lit "allThreadsContinued", JBool true)])
                        true [] Done)).

Definition handle_step_t (turns : nat) (command : pystr) (request : json) : thread :=
  Step (_send_gdb_command command) (fun _ =>
  Fork (_wait_for_stop_t turns) (send_response_t request JNull true [] Done)).

(** [handle_threads] as a thread. *)
Definition handle_threads_t (request : json) : thread :=
  send_response_t request
    (JDict [(lit "threads",
             JList [JDict [(lit "id", JInt 1); (lit "name", JStr (lit "main"))]])])
    true [] Done.

(** A thread run with no other thread beside it. *)
Fixpoint run_alone (t : thread) : M unit :=
  match t with
  | Done => ret tt
  | Step m k => a <- m ;; run_alone (k a)
  | Fork _ k => start_watcher ;; run_alone k
  end.

Fixpoint replace_nth {A} (i : nat) (x : A) (l : list A) : list A :=
  match l, i with
  | [], _ => []
  | _ :: r, O => x :: r
  | y :: r, S j => y :: replace_nth j x r
  end.

(** One step of thread [i] of the pool.  A step that raises ends its
    thread. *)
Definition step_thread (i : nat) (pool : list thread) (s : state)
  : list thread * state :=
  match nth_error pool i with
  | None => (pool, s)
  | Some Done => (pool, s)
  | Some (Step m k) =>
      match m s with
      | (Ok a, s') => (replace_nth i (k a) pool, s')
      | (Raise _, s') => (replace_nth i Done pool, s')
      end
  | Some (Fork child k) =>
      (replace_nth i k pool ++ [child], set_watchers (S (watchers s)) s)
  end.

(** The pool run under a schedule: the list of the threads that take the
    successive steps. *)
Fixpoint run_schedule (schedule : list nat) (pool : list thread) (s : state)
  : list thread * state :=
  match schedule with
  | [] => (pool, s)
  | i :: rest => let (pool', s') := step_thread i pool s in
                 run_schedule rest pool' s'
  end.

(** ** Reading the wire *)

(** The [seq] field of a message. *)
Definition seq_of (msg : json) : option Z :=
  match msg with
  | JDict kvs => match assoc (lit "seq") kvs with
                 | Some (JInt n) => Some n
                 | _ => None
                 end
  | _ => None
  end.

Definition field (k : string) (msg : json) : option json :=
  match msg with
  | JDict kvs => assoc (lit k) kvs
  | _ => None
  end.

(** The frames of a list of messages sent on connection [c]. *)
Definition frames_of (c : nat) (msgs : list json) : list (option (nat * bytes)) :=
  map (fun m => option_map (pair c) (encode m)) msgs.

Fixpoint strictly_increasing (l : list Z) : Prop :=
  match l with
  | a :: ((b :: _) as r) => (a < b)%Z /\ strictly_increasing r
  | _ => True
  end.


(** ** Notions used in the statements *)

(** Text made of ASCII characters. *)
Definition ascii_str (s : pystr) : Prop := Forall (fun c => (c < 128)%N) s.

(** One step of [int] over a digit. *)
Definition step10 (acc d : N) : N := (acc * 10 + (d - 48))%N.

(** The bytes of a frame: one byte for each character of its text. *)
Definition frame_bytes (msg : json) : bytes := map byte_of (frame_text msg).

(** The fields of the server object: the session state. *)
Definition session (s : state) :=
  (port s, program s, gdb_process s, client_socket s, seq s, running s,
   initialized s, breakpoints s, stopped_thread s).

(** [sendall] raises in this state: no socket, a closed one, or a fault
    of the connection. *)
Definition send_fails (s : state) : bool :=
  match client_socket s with
  | None => true
  | Some sk => closed sk
               || match send_faults s with Some _ :: _ => true | _ => false end
  end.

(** A state with everything about the client socket blanked: the socket,
    what its sends will do, and what was delivered. *)
Definition without_socket (s : state) : state :=
  set_client_socket None (set_send_faults [] (set_wire [] s)).

(** Two states that differ at most in the client socket. *)
Definition same_but_socket (s1 s2 : state) : Prop :=
  without_socket s1 = without_socket s2.

(** A computation whose outcome, and whose effect on everything but the
    socket, does not depend on the socket. *)
Definition socket_blind {A} (m : M A) : Prop :=
  forall s1 s2,
    same_but_socket s1 s2 ->
    fst (m s1) = fst (m s2) /\ same_but_socket (snd (m s1)) (snd (m s2)).

(** The subprocess [p] once its output has been read up to [rest]. *)
Definition read_up_to (rest : list pystr) (p : proc) : proc :=
  mkProc (pid p) rest (p_stdin p) (p_lifespan p) (p_terminated p).

(** The watcher run for [turns] turns from [s] ends by sending the one
    event [event] with [body], the output of [p] read up to [rest]. *)
Definition watcher_ends_with (turns : nat) (s : state) (p : proc)
    (rest : list pystr) (event : pystr) (body : json) : Prop :=
  _wait_for_stop turns s
  = (send_event event body ;; ret false)
      (set_gdb_process (Some (read_up_to rest p)) s).

(** [sendall] delivers in this state. *)
Definition send_delivers (s : state) (c : nat) : Prop :=
  client_socket s = Some (mkSocket c false) /\ send_faults s = [].

(** [d.get(k, default)] on a value known to be a dictionary. *)
Definition get_or (d : json) (k : string) (default : json) : json :=
  match d with
  | JDict kvs => match assoc (lit k) kvs with Some v => v | None => default end
  | _ => default
  end.

Definition is_dict (v : json) : Prop := exists kvs, v = JDict kvs.

(** The debugger subprocess, if there is one, runs on: it was not
    terminated and does not exit by itself. *)
Definition steady (s : state) : Prop :=
  match gdb_process s with
  | None => True
  | Some p => p_terminated p = false /\ p_lifespan p = None
  end.

(** [text] has [token] in it, letter case apart. *)
Definition contains_ignoring_case (token text : pystr) : Prop :=
  exists a w b, text = a ++ w ++ b /\ lower w = token.

(** The command line that installs the breakpoint entry [bp]. *)
Definition install_cmd (py_repr : json -> pystr) (path bp : json) : pystr :=
  break_insert_cmd py_repr path (get_or bp "line" JNull)
                   (get_or bp "condition" (JStr [])).

(** [installs path bps s outs s']: from [s], the entries [bps] are
    installed one after the other, each by writing its command and
    draining the debugger's output; [outs] are the texts drained, the
    debugger's output for each installation, and [s'] is the state
    reached. *)
Inductive installs (py_repr : json -> pystr) (path : json)
  : list json -> state -> list pystr -> state -> Prop :=
| installs_nil (s : state) : installs py_repr path [] s [] s
| installs_cons (bp : json) (bps : list json) (s s1 s2 : state)
    (out : pystr) (outs : list pystr) :
    (_send_gdb_command (install_cmd py_repr path bp) ;; _read_gdb_until_prompt) s
    = (Ok out, s1) ->
    installs py_repr path bps s1 outs s2 ->
    installs py_repr path (bp :: bps) s (out :: outs) s2.

(** The breakpoint object answered for the entry at 1-based [position]. *)
Definition breakpoint_entry (path : json) (position : nat) (bp : json)
    (output : pystr) : json :=
  JDict [(lit "id", JInt (Z.of_nat position));
         (lit "verified", JBool (contains (lit "done") (lower output)));
         (lit "line", get_or bp "line" JNull);
         (lit "source", JDict [(lit "path", path)])].

Fixpoint breakpoint_entries (path : json) (position : nat) (bps : list json)
    (outs : list pystr) : list json :=
  match bps, outs with
  | bp :: bps', out :: outs' =>
      breakpoint_entry path position bp out
      :: breakpoint_entries path (S position) bps' outs'
  | _, _ => []
  end.

(** The success response of [send_response] numbered [n]. *)
Definition success_response (n : Z) (request_seq command body : json) : json :=
  JDict [(lit "seq", JInt n);
         (lit "type", JStr (lit "response"));
         (lit "request_seq", request_seq);
         (lit "command", command);
         (lit "success", JBool true);
         (lit "body", body)].

(** The failure response of [send_response] numbered [n], with its
    message. *)
Definition failure_response (n : Z) (request_seq command : json)
    (message : pystr) : json :=
  JDict [(lit "seq", JInt n);
         (lit "type", JStr (lit "response"));
         (lit "request_seq", request_seq);
         (lit "command", command);
         (lit "success", JBool false);
         (lit "message", JStr message)].

(** Two states that agree on everything but the debugger subprocess and
    the clock. *)
Definition same_outside_gdb (s s' : state) : Prop :=
  port s' = port s /\ program s' = program s
  /\ client_socket s' = client_socket s /\ seq s' = seq s
  /\ running s' = running s /\ initialized s' = initialized s
  /\ breakpoints s' = breakpoints s /\ stopped_thread s' = stopped_thread s
  /\ orphans s' = orphans s /\ popen_next s' = popen_next s
  /\ send_faults s' = send_faults s /\ wire s' = wire s
  /\ watchers s' = watchers s.

(** The state [s'] comes from [s] by reading the debugger's output (and
    by the passing of time) only. *)
Definition only_read (s s' : state) : Prop :=
  same_outside_gdb s s'
  /\ match gdb_process s, gdb_process s' with
     | None, None => True
     | Some p, Some p' => exists rest, p' = read_up_to rest p
     | _, _ => False
     end.

(** The debugger's side of the two breakpoint commands, as the GDB
    manual describes them: [-break-delete] with no breakpoint number
    deletes every breakpoint, [-break-insert LOCATION ...] adds one.
    The table of breakpoints after the command lines [log]. *)
Definition gdb_table_after (log : list pystr) : list pystr :=
  fold_left
    (fun table line =>
       if pystr_eqb line (lit "-break-delete" ++ [LF]) then []
       else match strip_prefix (lit "-break-insert ") line with
            | Some location => table ++ [location]
            | None => table
            end)
    log [].

(** ** Sample objects *)

(** A DAP request as a client sends it. *)
Definition sample_request (n : Z) (command : string) (arguments : json) : json :=
  JDict [(lit "seq", JInt n);
         (lit "type", JStr (lit "request"));
         (lit "command", JStr (lit command));
         (lit "arguments", arguments)].

(** Two breakpoints in one file, the second with a condition. *)
Definition sample_setBreakpoints : json :=
  sample_request 3 "setBreakpoints"
    (JDict [(lit "source", JDict [(lit "path", JStr (lit "main.c"))]);
            (lit "breakpoints",
             JList [JDict [(lit "line", JInt 10)];
                    JDict [(lit "line", JInt 20);
                           (lit "condition", JStr (lit "x>5"))]])]).

Definition sample_args (request : json) : json :=
  get_or request "arguments" (JDict []).

(** A debugger that runs on and will print the given lines. *)
Definition sample_gdb (lines : list string) : proc :=
  mkProc 4242 (map (fun l => lit l ++ [LF]) lines) [] None false.

(** A server with a client connected and nothing else going on. *)
Definition sample_connected : state :=
  set_client_socket (Some (mkSocket 0 false))
                    (init_server 4711 (lit "/tmp/project/target/debug/debug_runner")
                                 [] [] []).

(** The same with a debugger attached. *)
Definition sample_debugging (lines : list string) : state :=
  set_gdb_process (Some (sample_gdb lines)) sample_connected.

(** The sample requests hold no list or dictionary where the server
    formats a value, so [repr] of containers is never asked for. *)
Definition sample_repr (v : json) : pystr := lit "<container>".

(** The error a write to the pipe of an exited subprocess raises. *)
Definition broken_pipe : exn := mkExn OSError (lit "[Errno 32] Broken pipe").

(** What [handle_launch] runs in its [try] block for a request with the
    arguments [args], in state [s]. *)
Definition launch_attempt (request args : json) (s : state) : M unit :=
  launch_body request
              (get_or args "program" (JStr (program s)))
              (get_or args "cwd" (JStr (lit "/tmp/project")))
              (get_or args "stopOnEntry" (JBool true)).

(** A step of the launch that has sent nothing yet and leaves a spawned
    debugger attached. *)
Definition quiet_with (p0 : proc) (s s' : state) : Prop :=
  seq s' = seq s /\ wire s' = wire s /\ client_socket s' = client_socket s
  /\ send_faults s' = send_faults s /\ orphans s' = orphans s
  /\ exists p, gdb_process s' = Some p /\ pid p = pid p0.

(** ** Numbering *)

(** The connection the server is talking on. *)
Definition conn_of (s : state) : option nat := option_map conn (client_socket s).

(** The frames of messages, each with the connection it goes out on. *)
Definition frames_on (msgs : list (nat * json)) : list (nat * bytes) :=
  map (fun cm => (fst cm, frame_bytes (snd cm))) msgs.

(** The messages carry numbers that go up strictly, from above [lo] to at
    most [hi]. *)
Fixpoint ascending (lo : Z) (msgs : list (nat * json)) (hi : Z) : Prop :=
  match msgs with
  | [] => (lo <= hi)%Z
  | cm :: rest =>
      exists k, seq_of (snd cm) = Some k /\ (lo < k)%Z /\ ascending k rest hi
  end.

(** From [s] to [s'] the server stayed on its connection, and what it
    sent are messages numbered upwards from above the counter of [s] to
    at most the counter of [s']. *)
Definition sends_in_order (s s' : state) : Prop :=
  conn_of s' = conn_of s
  /\ exists msgs,
       wire s' = wire s ++ frames_on msgs
       /\ ascending (seq s) msgs (seq s')
       /\ Forall (fun cm => conn_of s = Some (fst cm)) msgs.

Definition orderly {A} (m : M A) : Prop :=
  forall s, sends_in_order s (snd (m s)).

(** From [s] to [s'] nothing was sent and the counter stood still. *)
Definition silent (s s' : state) : Prop :=
  seq s' = seq s /\ wire s' = wire s /\ conn_of s' = conn_of s.

Definition quietly {A} (m : M A) : Prop := forall s, silent s (snd (m s)).

(** Messages in the order of the wire: connection numbers do not go
    down from [c], sequence numbers go up strictly from above [n]. *)
Fixpoint ordered_from (c : nat) (n : Z) (msgs : list (nat * json)) : Prop :=
  match msgs with
  | [] => True
  | cm :: rest =>
      (c <= fst cm)%nat
      /\ exists k, seq_of (snd cm) = Some k /\ (n < k)%Z
                   /\ ordered_from (fst cm) k rest
  end.

(** A reader for the JSON texts this development prints, standing in for
    [json.loads] where an example has to run: literals, integers,
    strings with their escapes (a surrogate pair read as one character),
    arrays and objects, blanks skipped between tokens. *)
Definition is_blank (c : N) : bool :=
  (c =? 32)%N || (c =? 9)%N || (c =? 10)%N || (c =? 13)%N.

Fixpoint skip_blanks (s : pystr) : pystr :=
  match s with
  | c :: r => if is_blank c then skip_blanks r else s
  | [] => []
  end.

Definition hex_value (c : N) : option N :=
  if is_digit c then Some (c - 48)%N
  else if ((97 <=? c) && (c <=? 102))%N then Some (c - 87)%N
  else if ((65 <=? c) && (c <=? 70))%N then Some (c - 55)%N
  else None.

Definition hex4 (a b c d : N) : option N :=
  match hex_value a, hex_value b, hex_value c, hex_value d with
  | Some x, Some y, Some z, Some w => Some (x * 4096 + y * 256 + z * 16 + w)%N
  | _, _, _, _ => None
  end.

(** The characters of a string literal after its opening quote, and the
    text after its closing quote. *)
Fixpoint read_string (fuel : nat) (s acc : pystr) : option (pystr * pystr) :=
  match fuel with
  | O => None
  | S f =>
      match s with
      | [] => None
      | 34%N :: r => Some (acc, r)
      | 92%N :: 117%N :: a :: b :: c :: d :: r =>
          match hex4 a b c d with
          | None => None
          | Some hi =>
              match r with
              | 92%N :: 117%N :: a' :: b' :: c' :: d' :: r' =>
                  match hex4 a' b' c' d' with
                  | Some lo =>
                      if ((55296 <=? hi) && (hi <? 56320)
                          && (56320 <=? lo) && (lo <? 57344))%N
                      then read_string f r'
                             (acc ++ [65536 + (hi - 55296) * 1024 + (lo - 56320)])%N
                      else read_string f r (acc ++ [hi])
                  | None => read_string f r (acc ++ [hi])
                  end
              | _ => read_string f r (acc ++ [hi])
              end
          end
      | 92%N :: e :: r =>
          match (if (e =? 34)%N then Some 34 else if (e =? 92)%N then Some 92
                 else if (e =? 47)%N then Some 47 else if (e =? 98)%N then Some 8
                 else if (e =? 102)%N then Some 12 else if (e =? 110)%N then Some 10
                 else if (e =? 114)%N then Some 13 else if (e =? 116)%N then Some 9
                 else None)%N with
          | Some c => read_string f r (acc ++ [c])
          | None => None
          end
      | c :: r => if (c <? 32)%N then None else read_string f r (acc ++ [c])
      end
  end.

Fixpoint read_value (fuel : nat) (s : pystr) : option (json * pystr) :=
  match fuel with
  | O => None
  | S f =>
      let s := skip_blanks s in
      match strip_prefix (lit "null") s with
      | Some r => Some (JNull, r)
      | None =>
      match strip_prefix (lit "true") s with
      | Some r => Some (JBool true, r)
      | None =>
      match strip_prefix (lit "false") s with
      | Some r => Some (JBool false, r)
      | None =>
      match s with
      | 34%N :: r =>
          match read_string (S (List.length r)) r [] with
          | Some (t, r') => Some (JStr t, r')
          | None => None
          end
      | 45%N :: r =>
          match span_digits r with
          | ([], _) => None
          | (ds, r') => Some (JInt (- Z.of_N (int_of_digits ds)), r')
          end
      | 91%N :: r =>
          match skip_blanks r with
          | 93%N :: r' => Some (JList [], r')
          | _ =>
              (fix items (n : nat) (s : pystr) (acc : list json)
                 : option (json * pystr) :=
                 match n with
                 | O => None
                 | S n' =>
                     match read_value f s with
                     | None => None
                     | Some (v, r1) =>
                         match skip_blanks r1 with
                         | 44%N :: r2 => items n' r2 (acc ++ [v])
                         | 93%N :: r2 => Some (JList (acc ++ [v]), r2)
                         | _ => None
                         end
                     end
                 end) (S (List.length r)) r []
          end
      | 123%N :: r =>
          match skip_blanks r with
          | 125%N :: r' => Some (JDict [], r')
          | _ =>
              (fix members (n : nat) (s : pystr) (acc : list (pystr * json))
                 : option (json * pystr) :=
                 match n with
                 | O => None
                 | S n' =>
                     match skip_blanks s with
                     | 34%N :: r0 =>
                         match read_string (S (List.length r0)) r0 [] with
                         | None => None
                         | Some (k, r1) =>
                             match skip_blanks r1 with
                             | 58%N :: r2 =>
                                 match read_value f r2 with
                                 | None => None
                                 | Some (v, r3) =>
                                     match skip_blanks r3 with
                                     | 44%N :: r4 => members n' r4 (acc ++ [(k, v)])
                                     | 125%N :: r4 => Some (JDict (acc ++ [(k, v)]), r4)
                                     | _ => None
                                     end
                                 end
                             | _ => None
                             end
                         end
                     | _ => None
                     end
                 end) (S (List.length r)) r []
          end
      | _ =>
          match span_digits s with
          | ([], _) => None
          | (ds, r') => Some (JInt (Z.of_N (int_of_digits ds)), r')
          end
      end end end end
  end.

Definition sample_loads (text : pystr) : option json :=
  match read_value (S (List.length text)) text with
  | Some (v, r) => match skip_blanks r with [] => Some v | _ => None end
  | None => None
  end.

(** Stand-ins for the three pattern searches where an example has to
    run: a debugger output in which nothing matches. *)
Definition no_frames (output : pystr) : list frame_match := [].
Definition no_vars (output : pystr) : list var_match := [].
Definition no_value (output : pystr) : option pystr := None.

(** An event as [send_event] builds it with the counter at [n]. *)
Definition event_json (n : Z) (event : pystr) (body : json) : json :=
  JDict ([(lit "seq", JInt n);
          (lit "type", JStr (lit "event"));
          (lit "event", JStr event)]
         ++ (if py_truthy body then [(lit "body", body)] else [])).

(** A stop record as the debugger prints it on hitting a breakpoint. *)
Definition sample_stop_line : pystr :=
  lit "*stopped,reason=" ++ [DQUOTE] ++ lit "breakpoint-hit" ++ [DQUOTE]
  ++ lit ",thread-id=" ++ [DQUOTE] ++ lit "1" ++ [DQUOTE] ++ [LF].

(** A server with a client connected and a running debuggee whose next
    output is a stop record. *)
Definition sample_stopping : state :=
  set_gdb_process
    (Some (mkProc 4242 [sample_stop_line] [] None false)) sample_connected.

(** The sample requests of the two-thread runs. *)
Definition sample_continue : json :=
  sample_request 7 "continue" (JDict [(lit "threadId", JInt 1)]).
Definition sample_threads : json := sample_request 9 "threads" (JDict []).

(** The body of the answer to [threads]. *)
Definition threads_body : json :=
  JDict [(lit "threads",
          JList [JDict [(lit "id", JInt 1); (lit "name", JStr (lit "main"))]])].

(** A text cut into chunks of one byte. *)
Definition byte_by_byte (data : bytes) : list bytes := map (fun b => [b]) data.

(** The parts of [sample_setBreakpoints], and a debugger that accepts
    its first breakpoint and refuses the second. *)
Definition sample_path : json := JStr (lit "main.c").
Definition sample_bps : list json :=
  [JDict [(lit "line", JInt 10)];
   JDict [(lit "line", JInt 20); (lit "condition", JStr (lit "x>5"))]].
Definition sample_breaking_lines : list string :=
  ["^done"; "^done,bkpt={number=1}"; "^error,msg=No symbol x"]%string.
Definition sample_breaking : state := sample_debugging sample_breaking_lines.

(** A launch on a machine without the debugger. *)
Definition sample_launch : json :=
  sample_request 2 "launch" (JDict [(lit "program", JStr (lit "/tmp/a.out"))]).
Definition sample_spawn_error : exn :=
  mkExn OSError (lit "[Errno 2] No such file or directory: 'gdb'").
Definition sample_no_gdb : state :=
  set_popen_next [SpawnFailed sample_spawn_error] sample_connected.

(** A server whose client has gone away. *)
Definition sample_hung_up : state :=
  set_client_socket (Some (mkSocket 0 true)) sample_connected.

(* ================================================================= *)
(** * Part II: properties *)
(* ================================================================= *)

(** ** Text *)

Lemma ascii_str_app (a b : pystr) :
  ascii_str a -> ascii_str b -> ascii_str (a ++ b).
Proof. intros; apply Forall_app; auto. Qed.

Lemma ascii_str_lit (t : string) :
  forallb (fun c => (c <? 128)%N) (lit t) = true -> ascii_str (lit t).
Proof.
  intros H. apply Forall_forall. intros c Hc.
  rewrite forallb_forall in H. apply N.ltb_lt. auto.
Qed.

Lemma strip_prefix_app (p s : pystr) : strip_prefix p (p ++ s) = Some s.
Proof.
  induction p as [|c p IH]; simpl; [reflexivity|].
  now rewrite N.eqb_refl.
Qed.

Lemma strip_prefix_inv (p s r : pystr) :
  strip_prefix p s = Some r -> s = p ++ r.
Proof.
  revert s; induction p as [|c p IH]; intros s H; simpl in *.
  - now inversion H.
  - destruct s as [|d s]; [discriminate|].
    destruct (N.eqb_spec c d); [|discriminate].
    subst. f_equal. auto.
Qed.

Lemma span_digits_inv (s ds rest : pystr) :
  span_digits s = (ds, rest) ->
  s = ds ++ rest /\ Forall (fun c => is_digit c = true) ds.
Proof.
  revert ds rest; induction s as [|c s IH]; intros ds rest H; simpl in H.
  - inversion H; subst; auto.
  - destruct (is_digit c) eqn:E.
    + destruct (span_digits s) as [ds' rest'] eqn:E'.
      inversion H; subst.
      destruct (IH _ _ eq_refl) as [-> Hd]. split; auto.
    + inversion H; subst. auto.
Qed.

Lemma span_digits_app (ds rest : pystr) :
  Forall (fun c => is_digit c = true) ds ->
  match rest with [] => True | c :: _ => is_digit c = false end ->
  span_digits (ds ++ rest) = (ds, rest).
Proof.
  intros Hd Hr. induction Hd as [|d ds Hd _ IH]; simpl.
  - destruct rest as [|c rest]; [reflexivity|]. simpl. now rewrite Hr.
  - now rewrite Hd, IH.
Qed.

(** Two digit runs, each closed by a carriage return, that start the same
    text are the same run. *)
Lemma digit_runs_agree (ds1 ds2 r1 r2 : pystr) :
  Forall (fun c => is_digit c = true) ds1 ->
  Forall (fun c => is_digit c = true) ds2 ->
  ds1 ++ CR :: r1 = ds2 ++ CR :: r2 ->
  ds1 = ds2 /\ r1 = r2.
Proof.
  intros H1; revert ds2; induction H1 as [|d ds1 Hd _ IH]; intros ds2 H2 E.
  - destruct H2 as [|d2 ds2 Hd2 _]; simpl in E.
    + inversion E; auto.
    + inversion E; subst. discriminate.
  - destruct H2 as [|d2 ds2 Hd2 H2]; simpl in E.
    + inversion E; subst. discriminate.
    + inversion E; subst. destruct (IH _ H2 H1) as [-> ->]. auto.
Qed.

(** *** Decimal numerals *)

Lemma digits_aux_S (f : nat) (n : N) (acc : pystr) :
  digits_aux (S f) n acc
  = if (n <? 10)%N then (48 + n mod 10)%N :: acc
    else digits_aux f (n / 10)%N ((48 + n mod 10)%N :: acc).
Proof. reflexivity. Qed.

Lemma digits_aux_spec (f : nat) :
  forall (n : N) (acc : pystr),
    (n < 2 ^ N.of_nat (S f))%N ->
    exists ds,
      digits_aux (S f) n acc = ds ++ acc
      /\ ds <> []
      /\ Forall (fun c => is_digit c = true) ds
      /\ forall a, fold_left step10 ds a = (a * 10 ^ N.of_nat (List.length ds) + n)%N.
Proof.
  assert (Hsmall : forall (g : nat) (n : N) (acc : pystr),
             (n < 10)%N ->
             exists ds,
               digits_aux (S g) n acc = ds ++ acc
               /\ ds <> []
               /\ Forall (fun c => is_digit c = true) ds
               /\ forall a, fold_left step10 ds a
                            = (a * 10 ^ N.of_nat (List.length ds) + n)%N).
  { intros g n acc Hlt. rewrite digits_aux_S.
    destruct (N.ltb_spec n 10) as [_|Hge]; [|lia].
    exists [(48 + n mod 10)%N]. repeat split.
    - discriminate.
    - constructor; [|constructor]. unfold is_digit.
      rewrite N.mod_small by lia.
      apply andb_true_intro; split; apply N.leb_le; lia.
    - intros a. cbn [fold_left List.length]. unfold step10.
      rewrite N.mod_small by lia. change (N.of_nat 1) with 1%N.
      rewrite N.pow_1_r. lia. }
  induction f as [|f IH]; intros n acc Hn.
  - apply Hsmall. cbn in Hn. lia.
  - destruct (N.ltb_spec n 10) as [Hlt|Hge]; [now apply Hsmall|].
    rewrite digits_aux_S. destruct (N.ltb_spec n 10) as [Hlt|_]; [lia|].
    assert (Hdiv : (n / 10 < 2 ^ N.of_nat (S f))%N).
    { rewrite (Nat2N.inj_succ (S f)), N.pow_succ_r' in Hn.
      apply N.Div0.div_lt_upper_bound. lia. }
    destruct (IH (n / 10)%N ((48 + n mod 10)%N :: acc) Hdiv)
      as (ds & E & Hne & Hd & Hf).
    exists (ds ++ [(48 + n mod 10)%N]). repeat split.
    + rewrite E, <- app_assoc. reflexivity.
    + destruct ds; discriminate.
    + apply Forall_app; split; [assumption|].
      constructor; [|constructor]. unfold is_digit.
      assert (Hm : (n mod 10 < 10)%N) by (apply N.mod_upper_bound; lia).
      clear - Hm. generalize dependent (n mod 10)%N. intros m Hm.
      apply andb_true_intro; split; apply N.leb_le; lia.
    + intros a. rewrite fold_left_app, Hf. cbn [fold_left]. unfold step10.
      rewrite length_app. cbn [List.length].
      replace (N.of_nat (List.length ds + 1)) with (N.succ (N.of_nat (List.length ds))) by lia.
      rewrite N.pow_succ_r'.
      assert (Hm : (n mod 10 < 10)%N) by (apply N.mod_upper_bound; lia).
      assert (Hq : n = (10 * (n / 10) + n mod 10)%N) by (apply N.div_mod; lia).
      clear - Hm Hq.
      generalize dependent (10 ^ N.of_nat (List.length ds))%N. intros q.
      generalize dependent (n mod 10)%N. generalize dependent (n / 10)%N.
      intros; subst n. lia.
Qed.

Lemma str_of_N_spec (n : N) :
  str_of_N n <> []
  /\ Forall (fun c => is_digit c = true) (str_of_N n)
  /\ int_of_digits (str_of_N n) = n.
Proof.
  unfold str_of_N.
  assert (Hn : (n < 2 ^ N.of_nat (S (N.to_nat (N.log2 n))))%N).
  { rewrite Nat2N.inj_succ, N2Nat.id.
    destruct n as [|p]; [cbn; lia|].
    apply N.log2_spec. lia. }
  destruct (digits_aux_spec [] Hn) as (ds & E & Hne & Hd & Hf).
  rewrite E, app_nil_r. repeat split; auto.
  unfold int_of_digits. change (fun acc d => (acc * 10 + (d - 48))%N) with step10.
  rewrite Hf. lia.
Qed.

Lemma is_digit_ascii (c : N) : is_digit c = true -> (c < 128)%N.
Proof.
  unfold is_digit. intros H. apply andb_prop in H as [_ H].
  apply N.leb_le in H. lia.
Qed.

Lemma str_of_N_ascii (n : N) : ascii_str (str_of_N n).
Proof.
  destruct (str_of_N_spec n) as (_ & H & _).
  eapply Forall_impl; [|exact H]. intros; now apply is_digit_ascii.
Qed.

Lemma str_of_Z_ascii (z : Z) : ascii_str (str_of_Z z).
Proof.
  unfold str_of_Z. destruct (z <? 0)%Z.
  - apply ascii_str_app; [|apply str_of_N_ascii].
    apply ascii_str_lit. reflexivity.
  - apply str_of_N_ascii.
Qed.

(** *** UTF-8 on ASCII text *)

Lemma byte_of_to_N (c : N) : (c < 256)%N -> Byte.to_N (byte_of c) = c.
Proof.
  intros H. unfold byte_of. destruct (Byte.of_N c) as [b|] eqn:E.
  - now apply Byte.to_of_N.
  - apply Byte.of_N_None_iff in E. lia.
Qed.

Lemma utf8_encode_ascii (s : pystr) :
  ascii_str s -> utf8_encode s = Some (map byte_of s).
Proof.
  induction 1 as [|c s Hc _ IH]; simpl; [reflexivity|].
  unfold utf8_encode_char. apply N.ltb_lt in Hc. rewrite Hc, IH. reflexivity.
Qed.

Lemma utf8_decode_ascii (s : pystr) :
  ascii_str s -> utf8_decode (map byte_of s) = Some s.
Proof.
  unfold utf8_decode. induction 1 as [|c s Hc _ IH]; simpl; [reflexivity|].
  rewrite byte_of_to_N by lia.
  apply N.ltb_lt in Hc. rewrite Hc, IH. reflexivity.
Qed.

(** *** [json.dumps] prints ASCII *)

Lemma json_induction (P : json -> Prop) :
  P JNull ->
  (forall b, P (JBool b)) ->
  (forall z, P (JInt z)) ->
  (forall s, P (JStr s)) ->
  (forall vs, Forall P vs -> P (JList vs)) ->
  (forall kvs, Forall (fun kv => P (snd kv)) kvs -> P (JDict kvs)) ->
  forall v, P v.
Proof.
  intros HN HB HI HS HL HD.
  refine (fix IH (v : json) : P v :=
            match v with
            | JNull => HN
            | JBool b => HB b
            | JInt z => HI z
            | JStr s => HS s
            | JList vs =>
                HL vs ((fix go (l : list json) : Forall P l :=
                          match l with
                          | [] => Forall_nil _
                          | x :: r => Forall_cons x (IH x) (go r)
                          end) vs)
            | JDict kvs =>
                HD kvs ((fix go (l : list (pystr * json))
                         : Forall (fun kv => P (snd kv)) l :=
                           match l with
                           | [] => Forall_nil _
                           | x :: r => Forall_cons x (IH (snd x)) (go r)
                           end) kvs)
            end).
Qed.

Lemma hex_digit_ascii (n : N) : (n < 16)%N -> (hex_digit n < 128)%N.
Proof. unfold hex_digit. intros H. destruct (n <? 10)%N; lia. Qed.

Lemma u_escape_ascii (n : N) : ascii_str (u_escape n).
Proof.
  unfold u_escape. apply ascii_str_app.
  - apply ascii_str_lit. reflexivity.
  - repeat constructor; apply hex_digit_ascii; apply N.mod_upper_bound; lia.
Qed.

Lemma escape_char_ascii (c : N) : ascii_str (escape_char c).
Proof.
  unfold escape_char.
  repeat match goal with
         | |- context [if ?b then _ else _] => destruct b eqn:?
         end;
    try (apply ascii_str_lit; reflexivity);
    try (repeat constructor; lia);
    try apply u_escape_ascii.
  - constructor; [|constructor].
    apply andb_prop in Heqb6 as [_ H]. apply N.leb_le in H. lia.
  - apply ascii_str_app; apply u_escape_ascii.
Qed.

Lemma quote_ascii (s : pystr) : ascii_str (quote s).
Proof.
  unfold quote. constructor; [unfold DQUOTE; lia|].
  apply ascii_str_app.
  - induction s as [|c s IH]; simpl; [constructor|].
    apply ascii_str_app; [apply escape_char_ascii|exact IH].
  - constructor; [unfold DQUOTE; lia|constructor].
Qed.

Lemma join_ascii (sep : pystr) (parts : list pystr) :
  ascii_str sep -> Forall ascii_str parts -> ascii_str (join sep parts).
Proof.
  intros Hs Hp. induction Hp as [|p ps Hp Hps IH]; [constructor|].
  cbn [join]. destruct ps as [|q ps]; [exact Hp|].
  apply ascii_str_app; [exact Hp|]. apply ascii_str_app; [exact Hs|exact IH].
Qed.

(** With [ensure_ascii] left at its default, what [json.dumps] returns
    holds ASCII characters only, whatever the strings of the value. *)
Lemma json_dumps_ascii (v : json) : ascii_str (json_dumps v).
Proof.
  induction v as [|b|z|s|vs IH|kvs IH] using json_induction; cbn [json_dumps].
  - apply ascii_str_lit; reflexivity.
  - destruct b; apply ascii_str_lit; reflexivity.
  - apply str_of_Z_ascii.
  - apply quote_ascii.
  - apply ascii_str_app; [apply ascii_str_lit; reflexivity|].
    apply ascii_str_app; [|apply ascii_str_lit; reflexivity].
    apply join_ascii; [apply ascii_str_lit; reflexivity|].
    induction IH; cbn [map]; constructor; auto.
  - apply ascii_str_app; [apply ascii_str_lit; reflexivity|].
    apply ascii_str_app; [|apply ascii_str_lit; reflexivity].
    apply join_ascii; [apply ascii_str_lit; reflexivity|].
    induction IH as [|kv kvs Hkv _ IHk]; cbn [map]; constructor; auto.
    apply ascii_str_app; [apply quote_ascii|].
    apply ascii_str_app; [apply ascii_str_lit; reflexivity|exact Hkv].
Qed.

Lemma frame_text_ascii (msg : json) : ascii_str (frame_text msg).
Proof.
  unfold frame_text. apply ascii_str_app; [apply ascii_str_lit; reflexivity|].
  apply ascii_str_app; [apply str_of_N_ascii|].
  apply ascii_str_app; [|apply json_dumps_ascii].
  unfold CRLFCRLF, CR, LF. repeat constructor; lia.
Qed.

Lemma encode_frame_bytes (msg : json) : encode msg = Some (frame_bytes msg).
Proof. apply utf8_encode_ascii, frame_text_ascii. Qed.

(** ** The frame codec *)

Lemma skipn_exact {A} (n : nat) (a b : list A) :
  n = List.length a -> skipn n (a ++ b) = b.
Proof. intros ->. induction a; simpl; auto. Qed.

Lemma firstn_exact {A} (n : nat) (a b : list A) :
  n = List.length a -> firstn n (a ++ b) = a.
Proof. intros ->. induction a; simpl; f_equal; auto. Qed.

Lemma CR_not_digit : is_digit CR = false.
Proof. reflexivity. Qed.

Lemma match_header_inv (buffer : pystr) (cl : N) (hl : nat) :
  match_header buffer = Some (cl, hl) ->
  exists ds rest,
    buffer = lit "Content-Length: " ++ ds ++ CRLFCRLF ++ rest
    /\ Forall (fun c => is_digit c = true) ds
    /\ cl = int_of_digits ds
    /\ hl = (16 + List.length ds + 4)%nat.
Proof.
  unfold match_header.
  destruct (strip_prefix (lit "Content-Length: ") buffer) as [rest|] eqn:E1;
    [|discriminate].
  destruct (span_digits rest) as [ds rest'] eqn:E2.
  destruct ds as [|d ds]; [discriminate|].
  destruct (strip_prefix CRLFCRLF rest') as [rest''|] eqn:E3; [|discriminate].
  intros H; inversion H; subst; clear H.
  apply strip_prefix_inv in E1, E3. apply span_digits_inv in E2 as [E2 Hd].
  subst. exists (d :: ds), rest''. auto.
Qed.

Lemma match_header_frame (ds body : pystr) :
  ds <> [] -> Forall (fun c => is_digit c = true) ds ->
  match_header (lit "Content-Length: " ++ ds ++ CRLFCRLF ++ body)
  = Some (int_of_digits ds, (16 + List.length ds + 4)%nat).
Proof.
  intros Hne Hd. unfold match_header.
  rewrite strip_prefix_app, span_digits_app; auto; [|exact CR_not_digit].
  destruct ds as [|d ds]; [congruence|].
  now rewrite strip_prefix_app.
Qed.

(** The decoder applied to a whole frame slices out its body and leaves
    nothing. *)
Lemma decode_frame_whole (msg : json) :
  decode_frame (frame_text msg) = Some (json_dumps msg, []).
Proof.
  unfold decode_frame, frame_text.
  set (content := json_dumps msg).
  destruct (str_of_N_spec (N.of_nat (List.length content))) as (Hne & Hd & Hi).
  set (ds := str_of_N (N.of_nat (List.length content))) in *.
  rewrite match_header_frame by assumption. rewrite Hi.
  assert (Hlen : List.length (lit "Content-Length: " ++ ds ++ CRLFCRLF ++ content)
                 = (16 + List.length ds + 4 + List.length content)%nat).
  { rewrite !length_app. cbn. lia. }
  rewrite Hlen.
  destruct (N.ltb_spec (N.of_nat (16 + List.length ds + 4 + List.length content))
                       (N.of_nat (16 + List.length ds + 4)
                        + N.of_nat (List.length content))) as [Hlt|_]; [lia|].
  rewrite Nat2N.id.
  replace (lit "Content-Length: " ++ ds ++ CRLFCRLF ++ content)
    with ((lit "Content-Length: " ++ ds ++ CRLFCRLF) ++ content)
    by (now rewrite <- !app_assoc).
  assert (Hh : (16 + List.length ds + 4)%nat
               = List.length (lit "Content-Length: " ++ ds ++ CRLFCRLF)).
  { rewrite !length_app. cbn. lia. }
  rewrite (skipn_exact _ _ Hh), firstn_all.
  rewrite skipn_all2; [reflexivity|]. rewrite length_app. lia.
Qed.

(** On a frame that has not arrived whole the decoder waits. *)
Lemma decode_frame_partial (msg : json) (p q : pystr) :
  q <> [] -> p ++ q = frame_text msg -> decode_frame p = None.
Proof.
  intros Hq E. unfold decode_frame.
  destruct (match_header p) as [[cl hl]|] eqn:Eh; [|reflexivity].
  apply match_header_inv in Eh as (ds & rest & -> & Hd & -> & ->).
  unfold frame_text in E.
  destruct (str_of_N_spec (N.of_nat (List.length (json_dumps msg))))
    as (_ & HD & Hi).
  rewrite <- !app_assoc in E. apply app_inv_head in E.
  unfold CRLFCRLF in E. cbn [app] in E.
  apply digit_runs_agree in E as [E1 E2]; auto.
  subst ds. rewrite Hi. inversion E2 as [E3]. clear E2 E3 Hd HD Hi.
  set (ds := str_of_N (N.of_nat (List.length (rest ++ q)))).
  assert (Hlen : List.length (lit "Content-Length: " ++ ds ++ CRLFCRLF ++ rest)
                 = (16 + List.length ds + 4 + List.length rest)%nat).
  { rewrite !length_app. cbn. lia. }
  rewrite Hlen, length_app.
  destruct q as [|c q]; [congruence|]. cbn [List.length].
  destruct (N.ltb_spec
              (N.of_nat (16 + List.length ds + 4 + List.length rest))
              (N.of_nat (16 + List.length ds + 4)
               + N.of_nat (List.length rest + S (List.length q)))) as [_|Hge];
    [reflexivity|lia].
Qed.

(** C2.  The bytes [send_message] hands to the socket are the header
    [Content-Length: N], a blank line, and the UTF-8 encoding of the JSON
    body with nothing after it, where the decimal numeral [N] is the
    number of bytes of that encoding.  The source prints the number of
    characters of the body; [json.dumps] escapes every character outside
    ASCII, so the two numbers are always the same. *)
Theorem encode_content_length_is_utf8_byte_length (msg : json) :
  exists body : bytes,
    utf8_encode (json_dumps msg) = Some body
    /\ List.length body = List.length (json_dumps msg)
    /\ int_of_digits (str_of_N (N.of_nat (List.length body)))
       = N.of_nat (List.length body)
    /\ encode msg
       = Some (map byte_of (lit "Content-Length: ")
               ++ map byte_of (str_of_N (N.of_nat (List.length body)))
               ++ map byte_of CRLFCRLF
               ++ body).
Proof.
  exists (map byte_of (json_dumps msg)). repeat split.
  - apply utf8_encode_ascii, json_dumps_ascii.
  - apply length_map.
  - apply str_of_N_spec.
  - rewrite encode_frame_bytes. unfold frame_bytes, frame_text.
    rewrite length_map, !map_app. reflexivity.
Qed.

(** ** Receiving frames *)

Section Framing.

Variable py_repr : json -> pystr.
Variable re_frames : pystr -> list frame_match.
Variable re_vars : pystr -> list var_match.
Variable re_value : pystr -> option pystr.
Variable json_loads : pystr -> option json.

Local Abbreviation dispatch := (handle_dap_message py_repr re_frames re_vars re_value).
Local Abbreviation parse := (parse_loop py_repr re_frames re_vars re_value json_loads).
Local Abbreviation recv := (recv_loop py_repr re_frames re_vars re_value json_loads).

Lemma recv_loop_unfold (chunks : list bytes) (buffer : pystr) (s : state) :
  recv chunks buffer s
  = if running s then
      match chunks with
      | [] => (Ok buffer, s)
      | [] :: _ => (Ok buffer, s)
      | ((_ :: _) as data) :: rest =>
          match utf8_decode data with
          | None => (Raise (mkExn ValueError (lit "'utf-8' codec can't decode")), s)
          | Some text =>
              match parse (S (List.length (buffer ++ text))) (buffer ++ text) s with
              | (Ok buffer2, s') => recv rest buffer2 s'
              | (Raise e, s') => (Raise e, s')
              end
          end
      end
    else (Ok buffer, s).
Proof.
  destruct chunks as [|[|b data] rest]; cbn [recv_loop]; unfold bind, get;
    destruct (running s); try reflexivity.
  destruct (utf8_decode (b :: data)); reflexivity.
Qed.

Lemma parse_loop_waits (fuel : nat) (buffer : pystr) (s : state) :
  decode_frame buffer = None -> parse fuel buffer s = (Ok buffer, s).
Proof. intros H. destruct fuel; cbn [parse_loop]; [|rewrite H]; reflexivity. Qed.

(** Chunks of an ASCII byte string are the images of pieces of its text. *)
Lemma ascii_chunks (text : pystr) (chunks : list bytes) :
  List.concat chunks = map byte_of text ->
  exists pieces, chunks = map (map byte_of) pieces /\ List.concat pieces = text.
Proof.
  revert text; induction chunks as [|c chunks IH]; intros text E; cbn in E.
  - exists []. destruct text; [auto|discriminate].
  - symmetry in E. apply map_eq_app in E as (t1 & t2 & -> & <- & E2).
    destruct (IH t2 (eq_sym E2)) as (pieces & -> & <-).
    exists (t1 :: pieces). auto.
Qed.

Lemma recv_pieces (m : json) :
  json_loads (json_dumps m) = Some m ->
  forall (pieces : list pystr) (pre : pystr) (s : state),
    running s = true ->
    Forall (fun p => p <> []) pieces ->
    pieces <> [] ->
    pre ++ List.concat pieces = frame_text m ->
    recv (map (map byte_of) pieces) pre s = (dispatch m ;; ret []) s.
Proof.
  intros Hloads. induction pieces as [|p ps IH]; intros pre s Hrun Hne Hnil E;
    [congruence|].
  inversion Hne as [|? ? Hp Hps]; subst.
  assert (Hascii : ascii_str p).
  { pose proof (frame_text_ascii m) as Ha. rewrite <- E in Ha.
    cbn [List.concat] in Ha.
    apply Forall_app in Ha as [_ Ha]. now apply Forall_app in Ha as [Ha _]. }
  rewrite recv_loop_unfold, Hrun. cbn [map].
  destruct p as [|c p]; [congruence|]. cbn [map].
  change (byte_of c :: map byte_of p) with (map byte_of (c :: p)).
  rewrite (utf8_decode_ascii Hascii).
  destruct ps as [|p2 ps].
  - cbn [List.concat] in E. rewrite app_nil_r in E. rewrite E.
    cbn [parse_loop]. rewrite decode_frame_whole, Hloads.
    unfold bind. destruct (dispatch m s) as [[[]|e] s']; [|reflexivity].
    rewrite parse_loop_waits by reflexivity.
    rewrite recv_loop_unfold. cbn [map]. destruct (running s'); reflexivity.
  - rewrite parse_loop_waits.
    + apply IH; auto; [discriminate|].
      rewrite <- app_assoc. exact E.
    + apply decode_frame_partial with (msg := m) (q := List.concat (p2 :: ps)).
      * inversion Hps; subst. destruct p2; [congruence|discriminate].
      * rewrite <- app_assoc. exact E.
Qed.


End Framing.

(** ** Failing sends *)

Lemma same_but_socket_fields (s1 s2 : state) :
  same_but_socket s1 s2 ->
  gdb_process s1 = gdb_process s2 /\ seq s1 = seq s2
  /\ running s1 = running s2 /\ program s1 = program s2
  /\ popen_next s1 = popen_next s2 /\ timeouts s1 = timeouts s2
  /\ orphans s1 = orphans s2 /\ watchers s1 = watchers s2.
Proof.
  unfold same_but_socket. intros H.
  repeat split;
    [ apply (f_equal gdb_process) in H | apply (f_equal seq) in H
    | apply (f_equal running) in H | apply (f_equal program) in H
    | apply (f_equal popen_next) in H | apply (f_equal timeouts) in H
    | apply (f_equal orphans) in H | apply (f_equal watchers) in H ];
    exact H.
Qed.

Lemma same_but_socket_refl (s : state) : same_but_socket s s.
Proof. reflexivity. Qed.

Lemma same_but_socket_trans (s1 s2 s3 : state) :
  same_but_socket s1 s2 -> same_but_socket s2 s3 -> same_but_socket s1 s3.
Proof. unfold same_but_socket; congruence. Qed.

Lemma same_but_socket_sym (s1 s2 : state) :
  same_but_socket s1 s2 -> same_but_socket s2 s1.
Proof. unfold same_but_socket; congruence. Qed.

(** Changing only the socket's part of a state. *)
Lemma socket_only_wire (v : list (nat * bytes)) (s : state) :
  same_but_socket (set_wire v s) s.
Proof. reflexivity. Qed.
Lemma socket_only_faults (v : list (option pystr)) (s : state) :
  same_but_socket (set_send_faults v s) s.
Proof. reflexivity. Qed.
Lemma socket_only_socket (v : option socket) (s : state) :
  same_but_socket (set_client_socket v s) s.
Proof. reflexivity. Qed.

(** Changing another field the same way on both sides. *)
Lemma same_set_gdb_process (v : option proc) (s1 s2 : state) :
  same_but_socket s1 s2 ->
  same_but_socket (set_gdb_process v s1) (set_gdb_process v s2).
Proof.
  unfold same_but_socket. intros H.
  change (set_gdb_process v (without_socket s1) = set_gdb_process v (without_socket s2)).
  now rewrite H.
Qed.
Lemma same_set_seq (v : Z) (s1 s2 : state) :
  same_but_socket s1 s2 -> same_but_socket (set_seq v s1) (set_seq v s2).
Proof.
  unfold same_but_socket. intros H.
  change (set_seq v (without_socket s1) = set_seq v (without_socket s2)).
  now rewrite H.
Qed.
Lemma same_set_running (v : bool) (s1 s2 : state) :
  same_but_socket s1 s2 -> same_but_socket (set_running v s1) (set_running v s2).
Proof.
  unfold same_but_socket. intros H.
  change (set_running v (without_socket s1) = set_running v (without_socket s2)).
  now rewrite H.
Qed.
Lemma same_set_orphans (v : list proc) (s1 s2 : state) :
  same_but_socket s1 s2 -> same_but_socket (set_orphans v s1) (set_orphans v s2).
Proof.
  unfold same_but_socket. intros H.
  change (set_orphans v (without_socket s1) = set_orphans v (without_socket s2)).
  now rewrite H.
Qed.
Lemma same_set_popen_next (v : list popen_result) (s1 s2 : state) :
  same_but_socket s1 s2 ->
  same_but_socket (set_popen_next v s1) (set_popen_next v s2).
Proof.
  unfold same_but_socket. intros H.
  change (set_popen_next v (without_socket s1) = set_popen_next v (without_socket s2)).
  now rewrite H.
Qed.
Lemma same_set_timeouts (v : list nat) (s1 s2 : state) :
  same_but_socket s1 s2 -> same_but_socket (set_timeouts v s1) (set_timeouts v s2).
Proof.
  unfold same_but_socket. intros H.
  change (set_timeouts v (without_socket s1) = set_timeouts v (without_socket s2)).
  now rewrite H.
Qed.
Lemma same_set_watchers (v : nat) (s1 s2 : state) :
  same_but_socket s1 s2 -> same_but_socket (set_watchers v s1) (set_watchers v s2).
Proof.
  unfold same_but_socket. intros H.
  change (set_watchers v (without_socket s1) = set_watchers v (without_socket s2)).
  now rewrite H.
Qed.

Lemma blind_ret {A} (a : A) : socket_blind (ret a).
Proof. intros s1 s2 H; cbn; auto. Qed.

Lemma blind_raise {A} (e : exn) : socket_blind (@raise A e).
Proof. intros s1 s2 H; cbn; auto. Qed.

Lemma blind_lift {A} (r : result A) : socket_blind (lift r).
Proof. intros s1 s2 H; cbn; auto. Qed.

Lemma blind_bind {A B} (m : M A) (k : A -> M B) :
  socket_blind m -> (forall a, socket_blind (k a)) -> socket_blind (bind m k).
Proof.
  intros Hm Hk s1 s2 H. unfold bind.
  destruct (Hm s1 s2 H) as [Hr Hs].
  destruct (m s1) as [[a1|e1] s1'], (m s2) as [[a2|e2] s2']; cbn in *;
    try discriminate.
  - inversion Hr; subst. now apply Hk.
  - inversion Hr; subst. auto.
Qed.

Lemma blind_try_except {A} (m : M A) (h : exn -> M A) :
  socket_blind m -> (forall e, socket_blind (h e)) -> socket_blind (try_except m h).
Proof.
  intros Hm Hh s1 s2 H. unfold try_except.
  destruct (Hm s1 s2 H) as [Hr Hs].
  destruct (m s1) as [[a1|e1] s1'], (m s2) as [[a2|e2] s2']; cbn in *;
    try discriminate; auto.
  inversion Hr; subst. now apply Hh.
Qed.

Lemma blind_try_finally {A} (m : M A) (f : M unit) :
  socket_blind m -> socket_blind f -> socket_blind (try_finally m f).
Proof.
  intros Hm Hf s1 s2 H. unfold try_finally.
  destruct (Hm s1 s2 H) as [Hr Hs].
  destruct (m s1) as [r1 s1'], (m s2) as [r2 s2']; cbn in *. subst r2.
  destruct (Hf s1' s2' Hs) as [Hr' Hs'].
  destruct (f s1') as [[[]|e1] s1''], (f s2') as [[[]|e2] s2'']; cbn in *;
    try discriminate; auto.
  inversion Hr'; subst. auto.
Qed.

Lemma blind_when (b : bool) (m : M unit) : socket_blind m -> socket_blind (when b m).
Proof. destruct b; cbn; auto using blind_ret. Qed.

Lemma blind_incr_seq : socket_blind incr_seq.
Proof.
  intros s1 s2 H. cbn. split; [reflexivity|].
  destruct (same_but_socket_fields H) as (_ & -> & _). now apply same_set_seq.
Qed.

(** [send_message] returns whatever the socket does, and touches nothing
    but the socket's part of the state. *)
Lemma send_message_swallows (msg : json) (s : state) :
  fst (send_message msg s) = Ok tt
  /\ same_but_socket (snd (send_message msg s)) s.
Proof.
  unfold send_message, try_except. rewrite encode_frame_bytes.
  unfold sendall.
  destruct (client_socket s) as [sk|]; cbn; [|split; reflexivity].
  destruct (closed sk); cbn; [split; reflexivity|].
  destruct (send_faults s) as [|[t|] rest]; cbn; split; reflexivity.
Qed.

Lemma blind_send_message (msg : json) : socket_blind (send_message msg).
Proof.
  intros s1 s2 H.
  destruct (send_message_swallows msg s1) as [-> H1].
  destruct (send_message_swallows msg s2) as [-> H2].
  split; [reflexivity|].
  eauto using same_but_socket_trans, same_but_socket_sym.
Qed.

Lemma blind_get_seq : socket_blind (get seq).
Proof.
  intros s1 s2 H. cbn. destruct (same_but_socket_fields H) as (_ & -> & _). auto.
Qed.

Lemma blind_get_running : socket_blind (get running).
Proof.
  intros s1 s2 H. cbn. destruct (same_but_socket_fields H) as (_ & _ & -> & _). auto.
Qed.

Lemma blind_get_program : socket_blind (get program).
Proof.
  intros s1 s2 H. cbn.
  destruct (same_but_socket_fields H) as (_ & _ & _ & -> & _). auto.
Qed.

Lemma blind_has_process : socket_blind has_process.
Proof.
  intros s1 s2 H. cbn. destruct (same_but_socket_fields H) as (-> & _). auto.
Qed.

Lemma blind_build_response (request body : json) (success : bool) (message : pystr) :
  socket_blind (build_response request body success message).
Proof.
  unfold build_response.
  repeat first [apply blind_bind; [|intros] | apply blind_get_seq
               | apply blind_lift | apply blind_ret].
Qed.

Lemma blind_build_event (event : pystr) (body : json) :
  socket_blind (build_event event body).
Proof.
  unfold build_event.
  repeat first [apply blind_bind; [|intros] | apply blind_get_seq | apply blind_ret].
Qed.

Lemma blind_send_response (request body : json) (success : bool) (message : pystr) :
  socket_blind (send_response request body success message).
Proof.
  unfold send_response.
  repeat first [apply blind_incr_seq | apply blind_build_response
               | apply blind_send_message | apply blind_bind; [|intros]].
Qed.

Lemma blind_send_event (event : pystr) (body : json) :
  socket_blind (send_event event body).
Proof.
  unfold send_event.
  repeat first [apply blind_incr_seq | apply blind_build_event
               | apply blind_send_message | apply blind_bind; [|intros]].
Qed.

Lemma blind_send_gdb_command (command : pystr) :
  socket_blind (_send_gdb_command command).
Proof.
  intros s1 s2 H. unfold _send_gdb_command.
  destruct (same_but_socket_fields H) as (<- & _).
  destruct (gdb_process s1) as [p|]; cbn; auto.
  destruct (alive p); cbn; auto using same_set_gdb_process.
Qed.

Lemma blind_readline : socket_blind readline.
Proof.
  intros s1 s2 H. unfold readline.
  destruct (same_but_socket_fields H) as (<- & _).
  destruct (gdb_process s1) as [p|]; cbn; auto.
  destruct (p_stdout p); cbn; auto using same_set_gdb_process.
Qed.

Lemma blind_read_turns (turns : nat) :
  forall output, socket_blind (read_turns turns output).
Proof.
  induction turns as [|t IH]; intros output; cbn [read_turns].
  - apply blind_ret.
  - apply blind_bind; [apply blind_has_process|]. intros [|]; [|apply IH].
    apply blind_bind.
    + apply blind_try_except; [|intros; apply blind_ret].
      apply blind_bind; [apply blind_readline|intros; apply blind_ret].
    + intros [[|c line]|]; try apply IH; try apply blind_ret.
      destruct (has_marker (c :: line)); [apply blind_ret|apply IH].
Qed.

Lemma blind_read_gdb_until_prompt : socket_blind _read_gdb_until_prompt.
Proof.
  intros s1 s2 H. unfold _read_gdb_until_prompt.
  destruct (same_but_socket_fields H) as (_ & _ & _ & _ & _ & <- & _).
  destruct (timeouts s1) as [|n rest].
  - now apply blind_read_turns.
  - apply blind_read_turns. now apply same_set_timeouts.
Qed.

Lemma blind_Popen (program cwd : json) : socket_blind (Popen program cwd).
Proof.
  intros s1 s2 H. unfold Popen.
  destruct (same_but_socket_fields H) as (_ & _ & _ & _ & <- & _).
  destruct (popen_next s1) as [|[p|e] rest]; cbn; auto using same_set_popen_next.
Qed.

Lemma blind_assign_gdb_process (p : proc) : socket_blind (assign_gdb_process p).
Proof.
  intros s1 s2 H. unfold assign_gdb_process, modify. cbn. split; [reflexivity|].
  destruct (same_but_socket_fields H) as (<- & _ & _ & _ & _ & _ & <- & _).
  destruct (gdb_process s1); auto using same_set_gdb_process, same_set_orphans.
Qed.

Lemma blind_terminate : socket_blind terminate.
Proof.
  intros s1 s2 H. unfold terminate.
  destruct (same_but_socket_fields H) as (<- & _).
  destruct (gdb_process s1); cbn; auto using same_set_gdb_process.
Qed.

Lemma blind_gdb_pid : socket_blind gdb_pid.
Proof.
  intros s1 s2 H. unfold gdb_pid.
  destruct (same_but_socket_fields H) as (<- & _).
  destruct (gdb_process s1); cbn; auto.
Qed.

Lemma blind_start_watcher : socket_blind start_watcher.
Proof.
  intros s1 s2 H. unfold start_watcher, modify. cbn. split; [reflexivity|].
  destruct (same_but_socket_fields H) as (_ & _ & _ & _ & _ & _ & _ & <-).
  now apply same_set_watchers.
Qed.

Lemma blind_set_running (v : bool) : socket_blind (modify (set_running v)).
Proof. intros s1 s2 H. cbn. auto using same_set_running. Qed.

Create HintDb blind.

#[local] Hint Resolve blind_ret blind_raise blind_lift blind_incr_seq
  blind_send_message blind_get_seq blind_get_running blind_get_program
  blind_has_process blind_build_response blind_build_event blind_send_response
  blind_send_event blind_send_gdb_command blind_readline
  blind_read_gdb_until_prompt blind_Popen blind_assign_gdb_process
  blind_terminate blind_gdb_pid blind_start_watcher blind_set_running : blind.

Ltac blind :=
  repeat first
    [ progress auto with blind
    | apply blind_bind; [|intros]
    | apply blind_try_except; [|intros]
    | apply blind_when
    | match goal with
      | |- socket_blind (if ?b then _ else _) => destruct b
      | |- socket_blind (match ?x with _ => _ end) => destruct x
      end ].

Section BlindHandlers.

Variable py_repr : json -> pystr.
Variable re_frames : pystr -> list frame_match.
Variable re_vars : pystr -> list var_match.
Variable re_value : pystr -> option pystr.

Lemma blind_install_breakpoints (path : json) (bps : list json) :
  forall i acc, socket_blind (install_breakpoints py_repr path i bps acc).
Proof.
  induction bps as [|bp bps IH]; intros i acc; cbn [install_breakpoints].
  - apply blind_ret.
  - blind; apply IH.
Qed.

Lemma blind_launch_body (request program cwd stop_on_entry : json) :
  socket_blind (launch_body request program cwd stop_on_entry).
Proof. unfold launch_body. blind. Qed.

Lemma blind_handler (name : pystr) (h : json -> json -> M unit) :
  getattr_handler name (handler_table py_repr re_frames re_vars re_value) = Some h ->
  forall request args, socket_blind (h request args).
Proof.
  unfold handler_table. cbn [getattr_handler].
  repeat match goal with
         | |- context [if ?b then _ else _] => destruct b
         end;
    intros H; inversion H; subst; clear H; intros request args.
  all: try (unfold wrong_arity; apply blind_raise).
  all: unfold handle_initialize, handle_launch, handle_setBreakpoints,
         handle_configurationDone, handle_threads, handle_stackTrace,
         handle_scopes, handle_variables, handle_continue, handle_next,
         handle_stepIn, handle_stepOut, handle_step, handle_evaluate,
         handle_disconnect, handle_terminate.
  all: blind; first [apply blind_launch_body | apply blind_install_breakpoints].
Qed.

Lemma blind_handle_dap_message (message : json) :
  socket_blind (handle_dap_message py_repr re_frames re_vars re_value message).
Proof.
  unfold handle_dap_message.
  apply blind_bind; [apply blind_lift|]. intros msg_type.
  destruct (is_str msg_type (lit "request")); [|apply blind_ret].
  apply blind_bind; [apply blind_lift|]. intros command.
  apply blind_bind; [apply blind_lift|]. intros args.
  destruct (getattr_handler (py_str py_repr command) _) as [h|] eqn:E.
  - eapply blind_handler; eauto.
  - apply blind_send_response.
Qed.

End BlindHandlers.

Lemma blind_watch_line (line : pystr) : socket_blind (watch_line line).
Proof. unfold watch_line. blind. Qed.

Lemma blind_watching : socket_blind watching.
Proof. unfold watching. blind. Qed.

Lemma blind_wait_for_stop (turns : nat) : socket_blind (_wait_for_stop turns).
Proof.
  induction turns as [|t IH]; cbn [_wait_for_stop]; [apply blind_watching|].
  apply blind_bind; [apply blind_watching|]. intros [|]; [|apply blind_ret].
  apply blind_bind; [apply blind_readline|]. intros line.
  apply blind_bind; [apply blind_watch_line|]. intros [|]; [apply IH|apply blind_ret].
Qed.

Lemma session_of_same (s1 s2 : state) :
  same_but_socket s1 s2 -> client_socket s1 = client_socket s2 ->
  session s1 = session s2.
Proof.
  unfold same_but_socket, session. intros H Hc.
  pose proof (f_equal port H) as H1. pose proof (f_equal program H) as H2.
  pose proof (f_equal gdb_process H) as H3. pose proof (f_equal seq H) as H4.
  pose proof (f_equal running H) as H5. pose proof (f_equal initialized H) as H6.
  pose proof (f_equal breakpoints H) as H7.
  pose proof (f_equal stopped_thread H) as H8.
  cbn in *. congruence.
Qed.

Lemma send_message_fails (msg : json) (s : state) :
  send_fails s = true ->
  exists s', send_message msg s = (Ok tt, s')
             /\ session s' = session s /\ wire s' = wire s.
Proof.
  unfold send_fails, send_message, try_except. rewrite encode_frame_bytes.
  unfold sendall. intros H.
  destruct (client_socket s) as [sk|] eqn:Es; cbn.
  - destruct (closed sk); cbn in *.
    + exists s. auto.
    + destruct (send_faults s) as [|[t|] rest]; try discriminate.
      exists (set_send_faults rest s). auto.
  - exists s. auto.
Qed.

(** C10.  A send that fails is swallowed.  [send_message] returns
    normally, with the session as it was and nothing delivered;
    [send_response] (for a request that has its [seq] and [command]) and
    [send_event] return normally with the counter advanced by one and
    nothing else of the session changed; and whether a request handler or
    the watcher returns or raises, and what it does to everything but the
    socket, is the same whatever the socket does. *)
Theorem send_failure_is_swallowed :
  (forall msg s,
      send_fails s = true ->
      exists s', send_message msg s = (Ok tt, s')
                 /\ session s' = session s /\ wire s' = wire s)
  /\ (forall request body success message rs cmd s,
         py_index request (lit "seq") = Ok rs ->
         py_index request (lit "command") = Ok cmd ->
         send_fails s = true ->
         exists s', send_response request body success message s = (Ok tt, s')
                    /\ session s' = session (set_seq (seq s + 1) s)
                    /\ wire s' = wire s)
  /\ (forall event body s,
         send_fails s = true ->
         exists s', send_event event body s = (Ok tt, s')
                    /\ session s' = session (set_seq (seq s + 1) s)
                    /\ wire s' = wire s)
  /\ (forall py_repr re_frames re_vars re_value message,
         socket_blind (handle_dap_message py_repr re_frames re_vars re_value message))
  /\ (forall turns, socket_blind (_wait_for_stop turns)).
Proof.
  split; [exact send_message_fails|].
  split.
  { intros request body success message rs cmd s Hs Hc Hf.
    unfold send_response, build_response, incr_seq, modify, bind, get, lift, ret.
    rewrite Hs, Hc.
    match goal with
    | |- context [send_message ?m ?st] =>
        destruct (@send_message_fails m st Hf) as (s' & E & Hsess & Hw)
    end.
    exists s'. auto. }
  split.
  { intros event body s Hf.
    unfold send_event, build_event, incr_seq, modify, bind, get, ret.
    match goal with
    | |- context [send_message ?m ?st] =>
        destruct (@send_message_fails m st Hf) as (s' & E & Hsess & Hw)
    end.
    exists s'. auto. }
  split.
  - intros. apply blind_handle_dap_message.
  - exact blind_wait_for_stop.
Qed.

(** ** What a send does *)

Lemma send_message_delivers (msg : json) (s : state) (c : nat) :
  send_delivers s c ->
  send_message msg s = (Ok tt, set_wire (wire s ++ [(c, frame_bytes msg)]) s).
Proof.
  intros [Hs Hf]. unfold send_message, try_except, sendall.
  rewrite encode_frame_bytes, Hs, Hf. reflexivity.
Qed.

Lemma send_message_effect (msg : json) (s : state) :
  exists s',
    send_message msg s = (Ok tt, s')
    /\ same_but_socket s' s
    /\ client_socket s' = client_socket s
    /\ (wire s' = wire s
        \/ exists sk, client_socket s = Some sk
                      /\ wire s' = wire s ++ [(conn sk, frame_bytes msg)]).
Proof.
  unfold send_message, try_except, sendall. rewrite encode_frame_bytes.
  destruct (client_socket s) as [sk|] eqn:Es; cbn.
  - destruct (closed sk); cbn.
    + exists s. repeat split; auto.
    + destruct (send_faults s) as [|[t|] rest]; cbn.
      * eexists. repeat split; eauto.
      * eexists. repeat split; eauto.
      * eexists. repeat split; eauto.
  - exists s. repeat split; auto.
Qed.

Lemma send_event_effect (event : pystr) (body : json) (s : state) :
  exists s',
    send_event event body s = (Ok tt, s')
    /\ seq s' = (seq s + 1)%Z
    /\ gdb_process s' = gdb_process s
    /\ running s' = running s
    /\ (List.length (wire s') <= List.length (wire s) + 1)%nat.
Proof.
  unfold send_event, build_event, incr_seq, modify, bind, get, ret.
  match goal with
  | |- context [send_message ?m ?st] =>
      destruct (send_message_effect m st) as (s' & E & Hsame & _ & Hw)
  end.
  exists s'. rewrite E.
  destruct (same_but_socket_fields Hsame) as (Hg & Hq & Hr & _).
  repeat split; auto.
  destruct Hw as [->|(sk & _ & ->)]; cbn; [lia|].
  rewrite length_app. cbn. lia.
Qed.

(** ** The stop watcher *)

Lemma watch_line_quiet (line : pystr) (s : state) :
  contains STOPPED line = false -> watch_line line s = (Ok true, s).
Proof.
  intros H. unfold watch_line. rewrite H.
  destruct (contains (lit "^running") line); [reflexivity|].
  destruct (contains (lit "*running") line); reflexivity.
Qed.

Lemma watch_line_stop (line : pystr) :
  contains STOPPED line = true ->
  watch_line line
  = if contains END_STEPPING line
    then (send_event (lit "stopped") (stopped_body (lit "step")) ;; ret false)
    else if contains EXITED line
         then (send_event (lit "terminated") JNull ;; ret false)
         else (send_event (lit "stopped") (stopped_body (lit "breakpoint")) ;; ret false).
Proof. intros H. unfold watch_line. now rewrite H. Qed.

Lemma watching_true (s : state) (p : proc) :
  running s = true -> gdb_process s = Some p -> watching s = (Ok true, s).
Proof.
  intros Hr Hp. unfold watching, has_process, bind, get.
  rewrite Hr. cbn. now rewrite Hp.
Qed.

Lemma readline_cons (s : state) (p : proc) (line : pystr) (rest : list pystr) :
  gdb_process s = Some p -> p_stdout p = line :: rest ->
  readline s = (Ok line, set_gdb_process (Some (read_up_to rest p)) s).
Proof. intros Hp Ho. unfold readline. now rewrite Hp, Ho. Qed.

Lemma wait_for_stop_unfold (t : nat) (s : state) :
  _wait_for_stop (S t) s
  = match watching s with
    | (Ok true, s1) =>
        match readline s1 with
        | (Ok line, s2) =>
            match watch_line line s2 with
            | (Ok true, s3) => _wait_for_stop t s3
            | (Ok false, s3) => (Ok false, s3)
            | (Raise e, s3) => (Raise e, s3)
            end
        | (Raise e, s2) => (Raise e, s2)
        end
    | (Ok false, s1) => (Ok false, s1)
    | (Raise e, s1) => (Raise e, s1)
    end.
Proof.
  cbn [_wait_for_stop]. unfold bind.
  destruct (watching s) as [[[|]|e] s1]; try reflexivity.
  destruct (readline s1) as [[line|e] s2]; try reflexivity.
  destruct (watch_line line s2) as [[[|]|e] s3]; reflexivity.
Qed.

Lemma wait_for_stop_reads (quiet : list pystr) :
  forall (turns : nat) (s : state) (p : proc) (line : pystr) (rest : list pystr),
    running s = true ->
    gdb_process s = Some p ->
    p_stdout p = quiet ++ line :: rest ->
    Forall (fun l => contains STOPPED l = false) quiet ->
    contains STOPPED line = true ->
    (List.length quiet < turns)%nat ->
    _wait_for_stop turns s
    = (again <- watch_line line ;; ret false)
        (set_gdb_process (Some (read_up_to rest p)) s).
Proof.
  induction quiet as [|q quiet IH]; intros turns s p line rest Hr Hp Ho Hq Hl Ht.
  - destruct turns as [|t]; [cbn in Ht; lia|].
    rewrite wait_for_stop_unfold, (watching_true s Hr Hp).
    rewrite (readline_cons s Hp Ho). unfold bind.
    destruct (watch_line line _) as [[[|]|e] s'] eqn:E; try reflexivity.
    rewrite watch_line_stop in E by assumption.
    exfalso. revert E.
    destruct (contains END_STEPPING line); [|destruct (contains EXITED line)];
      unfold bind;
      match goal with
      | |- context [send_event ?ev ?b ?st] =>
          destruct (send_event_effect ev b st) as (s1 & -> & _)
      end; cbn; discriminate.
  - destruct turns as [|t]; [cbn in Ht; lia|].
    inversion Hq as [|? ? Hq1 Hq2]; subst.
    rewrite wait_for_stop_unfold, (watching_true s Hr Hp).
    rewrite (readline_cons s Hp Ho), watch_line_quiet by assumption.
    rewrite (IH t _ (read_up_to (quiet ++ line :: rest) p) line rest);
      auto; cbn in *; lia.
Qed.

Lemma wait_for_stop_first_stop (quiet : list pystr) (turns : nat) (s : state)
    (p : proc) (line : pystr) (rest : list pystr) :
  running s = true ->
  gdb_process s = Some p ->
  p_stdout p = quiet ++ line :: rest ->
  Forall (fun l => contains STOPPED l = false) quiet ->
  contains STOPPED line = true ->
  (List.length quiet < turns)%nat ->
  (contains END_STEPPING line = true ->
   watcher_ends_with turns s p rest (lit "stopped") (stopped_body (lit "step")))
  /\ (contains END_STEPPING line = false -> contains EXITED line = true ->
      watcher_ends_with turns s p rest (lit "terminated") JNull)
  /\ (contains END_STEPPING line = false -> contains EXITED line = false ->
      watcher_ends_with turns s p rest (lit "stopped")
                        (stopped_body (lit "breakpoint"))).
Proof.
  intros Hr Hp Ho Hq Hl Ht. unfold watcher_ends_with.
  rewrite (@wait_for_stop_reads quiet turns s p line rest) by assumption.
  rewrite watch_line_stop by assumption.
  repeat split; intros;
    repeat match goal with H : contains _ line = _ |- _ => rewrite H; clear H end;
    unfold bind;
    match goal with
    | |- context [send_event ?ev ?b ?st] =>
        destruct (send_event_effect ev b st) as (s1 & -> & _)
    end; reflexivity.
Qed.

Lemma watch_line_cases (line : pystr) (s : state) :
  watch_line line s = (Ok true, s)
  \/ exists s', watch_line line s = (Ok false, s')
                /\ seq s' = (seq s + 1)%Z
                /\ (List.length (wire s') <= List.length (wire s) + 1)%nat.
Proof.
  destruct (contains STOPPED line) eqn:Hs.
  - right. rewrite watch_line_stop by assumption.
    destruct (contains END_STEPPING line); [|destruct (contains EXITED line)];
      unfold bind;
      match goal with
      | |- context [send_event ?ev ?b ?st] =>
          destruct (send_event_effect ev b st) as (s1 & -> & Hq & _ & _ & Hw)
      end; exists s1; auto.
  - left. now apply watch_line_quiet.
Qed.

Lemma watching_reads_only (s : state) : snd (watching s) = s.
Proof.
  unfold watching, has_process, bind, get. destruct (running s); reflexivity.
Qed.

Lemma readline_keeps (s : state) :
  seq (snd (readline s)) = seq s /\ wire (snd (readline s)) = wire s.
Proof.
  unfold readline. destruct (gdb_process s) as [p|]; [|auto].
  destruct (p_stdout p); auto.
Qed.

Lemma wait_for_stop_once (turns : nat) :
  forall s,
    (seq s <= seq (snd (_wait_for_stop turns s)) <= seq s + 1)%Z
    /\ (List.length (wire (snd (_wait_for_stop turns s)))
        <= List.length (wire s) + 1)%nat.
Proof.
  induction turns as [|t IH]; intros s.
  - cbn [_wait_for_stop]. rewrite watching_reads_only. lia.
  - rewrite wait_for_stop_unfold.
    pose proof (watching_reads_only s) as Hw.
    destruct (watching s) as [[[|]|e] s1]; cbn in Hw; subst s1; cbn; try lia.
    destruct (readline_keeps s) as [Hq Hwire].
    destruct (readline s) as [[line|e] s2]; cbn in *; [|rewrite Hq, Hwire; lia].
    destruct (watch_line_cases line s2) as [->|(s3 & -> & Hq3 & Hw3)].
    + specialize (IH s2). rewrite Hq, Hwire in IH. exact IH.
    + cbn. rewrite Hwire in Hw3. lia.
Qed.


(** ** Substrings *)

Lemma contains_unfold (needle s : pystr) :
  contains needle s
  = match strip_prefix needle s with
    | Some _ => true
    | None => match s with [] => false | _ :: s' => contains needle s' end
    end.
Proof. destruct s; reflexivity. Qed.

Lemma contains_spec (needle s : pystr) :
  contains needle s = true <-> exists a b, s = a ++ needle ++ b.
Proof.
  split.
  - induction s as [|c s IH]; rewrite contains_unfold; intros H.
    + destruct (strip_prefix needle []) as [r|] eqn:E; [|discriminate].
      apply strip_prefix_inv in E. exists [], r. exact E.
    + destruct (strip_prefix needle (c :: s)) as [r|] eqn:E.
      * apply strip_prefix_inv in E. exists [], r. exact E.
      * destruct (IH H) as (a & b & ->). exists (c :: a), b. reflexivity.
  - intros (a & b & ->). induction a as [|c a IH].
    + rewrite contains_unfold. cbn [app]. now rewrite strip_prefix_app.
    + rewrite contains_unfold. cbn [app].
      destruct (strip_prefix needle (c :: a ++ needle ++ b)); [reflexivity|exact IH].
Qed.

(** What [verified] tests is containment of the token, letter case
    apart. *)
Lemma contains_lower_spec (token text : pystr) :
  contains token (lower text) = true <-> contains_ignoring_case token text.
Proof.
  rewrite contains_spec. unfold contains_ignoring_case, lower. split.
  - intros (a & b & E). apply map_eq_app in E as (a' & r & -> & <- & E).
    apply map_eq_app in E as (w & b' & -> & <- & <-).
    exists a', w, b'. auto.
  - intros (a & w & b & -> & <-). exists (map lower_char a), (map lower_char b).
    now rewrite !map_app.
Qed.

(** ** Talking to the debugger *)

Lemma only_read_refl (s : state) : only_read s s.
Proof.
  split; [unfold same_outside_gdb; repeat split|].
  destruct (gdb_process s) as [p|]; [|exact I].
  exists (p_stdout p). now destruct p.
Qed.

Lemma only_read_trans (s1 s2 s3 : state) :
  only_read s1 s2 -> only_read s2 s3 -> only_read s1 s3.
Proof.
  intros [H1 G1] [H2 G2]. split.
  - unfold same_outside_gdb in *.
    repeat match goal with H : _ /\ _ |- _ => destruct H end.
    repeat split; congruence.
  - destruct (gdb_process s1) as [p1|], (gdb_process s2) as [p2|],
      (gdb_process s3) as [p3|]; try contradiction; auto.
    destruct G1 as [r1 ->], G2 as [r2 ->]. exists r2. reflexivity.
Qed.

Lemma only_read_steady (s s' : state) : only_read s s' -> steady s -> steady s'.
Proof.
  intros [_ G]. unfold steady.
  destruct (gdb_process s) as [p|], (gdb_process s') as [p'|];
    try contradiction; auto.
  destruct G as [r ->]. auto.
Qed.

Lemma only_read_set_timeouts (t : list nat) (s : state) :
  only_read s (set_timeouts t s).
Proof.
  split; [unfold same_outside_gdb; repeat split|]. cbn.
  destruct (gdb_process s) as [p|]; [|exact I].
  exists (p_stdout p). now destruct p.
Qed.

Lemma readline_only_reads (s : state) (p : proc) :
  gdb_process s = Some p ->
  exists line s', readline s = (Ok line, s') /\ only_read s s'.
Proof.
  intros Hp. unfold readline. rewrite Hp.
  destruct (p_stdout p) as [|line rest] eqn:Ho.
  - exists [], s. split; [reflexivity|apply only_read_refl].
  - eexists _, _. split; [reflexivity|].
    split; [unfold same_outside_gdb; repeat split|]. cbn. rewrite Hp.
    exists rest. reflexivity.
Qed.

Lemma read_turns_only_reads (turns : nat) :
  forall output s,
    exists out s', read_turns turns output s = (Ok out, s') /\ only_read s s'.
Proof.
  induction turns as [|t IH]; intros output s; cbn [read_turns].
  - exists (List.concat output), s. split; [reflexivity|apply only_read_refl].
  - unfold bind at 1, has_process, get.
    destruct (gdb_process s) as [p|] eqn:Hp; [|apply IH].
    destruct (readline_only_reads s Hp) as (line & s1 & E & Hr).
    unfold bind at 1, try_except, bind at 1. rewrite E. cbn [ret].
    destruct line as [|c line].
    + destruct (IH output s1) as (out & s' & E' & Hr').
      exists out, s'. split; [exact E'|]. eauto using only_read_trans.
    + destruct (has_marker (c :: line)).
      * eexists _, s1. split; [reflexivity|assumption].
      * destruct (IH (output ++ [c :: line]) s1) as (out & s' & E' & Hr').
        exists out, s'. split; [exact E'|]. eauto using only_read_trans.
Qed.

(** Draining never raises, and only reads. *)
Lemma read_gdb_until_prompt_only_reads (s : state) :
  exists out s', _read_gdb_until_prompt s = (Ok out, s') /\ only_read s s'.
Proof.
  unfold _read_gdb_until_prompt. destruct (timeouts s) as [|n rest].
  - apply read_turns_only_reads.
  - destruct (read_turns_only_reads (S n) [] (set_timeouts rest s))
      as (out & s' & E & Hr).
    exists out, s'. split; [exact E|].
    eauto using only_read_trans, only_read_set_timeouts.
Qed.

(** The state after one more command line went to the debugger. *)
Lemma send_gdb_command_steady (command : pystr) (s : state) :
  steady s ->
  exists s',
    _send_gdb_command command s = (Ok tt, s')
    /\ steady s'
    /\ same_outside_gdb s s'
    /\ match gdb_process s with
       | None => gdb_process s' = None
       | Some p => gdb_process s' = Some (take_line command p)
       end.
Proof.
  unfold steady, _send_gdb_command. intros H.
  destruct (gdb_process s) as [p|] eqn:Hp.
  - destruct H as [Ht Hl]. unfold alive. rewrite Ht, Hl. cbn.
    eexists. split; [reflexivity|]. cbn. rewrite Hl.
    repeat split; auto.
  - exists s. rewrite Hp. repeat split; auto.
Qed.

Lemma same_outside_gdb_trans (s1 s2 s3 : state) :
  same_outside_gdb s1 s2 -> same_outside_gdb s2 s3 -> same_outside_gdb s1 s3.
Proof.
  unfold same_outside_gdb. intros H1 H2.
  repeat match goal with H : _ /\ _ |- _ => destruct H end.
  repeat split; congruence.
Qed.

Lemma send_response_success (request body rs cmd : json) (s : state) :
  py_index request (lit "seq") = Ok rs ->
  py_index request (lit "command") = Ok cmd ->
  py_truthy body = true ->
  send_response request body true [] s
  = send_message (success_response (seq s + 1) rs cmd body) (set_seq (seq s + 1) s).
Proof.
  intros Hs Hc Hb.
  unfold send_response, build_response, incr_seq, modify, bind, get, lift, ret.
  rewrite Hs, Hc, Hb. reflexivity.
Qed.

Lemma send_response_failure (request rs cmd : json) (c : N) (message : pystr)
    (s : state) :
  py_index request (lit "seq") = Ok rs ->
  py_index request (lit "command") = Ok cmd ->
  send_response request JNull false (c :: message) s
  = send_message (failure_response (seq s + 1) rs cmd (c :: message))
                 (set_seq (seq s + 1) s).
Proof.
  intros Hs Hc.
  unfold send_response, build_response, incr_seq, modify, bind, get, lift, ret.
  rewrite Hs, Hc. reflexivity.
Qed.

Lemma breakpoint_entries_length (path : json) (bps : list json) :
  forall position outs,
    List.length outs = List.length bps ->
    List.length (breakpoint_entries path position bps outs) = List.length bps.
Proof.
  induction bps as [|bp bps IH]; intros position [|out outs] H; cbn in *;
    try discriminate; auto.
Qed.

Lemma breakpoint_entries_nth (path : json) (bps : list json) :
  forall position outs k bp out,
    nth_error bps k = Some bp ->
    nth_error outs k = Some out ->
    nth_error (breakpoint_entries path position bps outs) k
    = Some (breakpoint_entry path (position + k) bp out).
Proof.
  induction bps as [|b bps IH]; intros position [|o outs] [|k] bp out Hb Ho;
    cbn in *; try discriminate.
  - inversion Hb; inversion Ho; subst. now rewrite Nat.add_0_r.
  - rewrite (IH (S position) outs k bp out Hb Ho). do 2 f_equal. lia.
Qed.

Section Breakpoints.

Variable py_repr : json -> pystr.

Lemma install_breakpoints_steady (path : json) (bps : list json) :
  forall (i : nat) (acc : list json) (s : state),
    Forall is_dict bps ->
    steady s ->
    exists outs s',
      installs py_repr path bps s outs s'
      /\ List.length outs = List.length bps
      /\ install_breakpoints py_repr path (Z.of_nat i) bps acc s
         = (Ok (acc ++ breakpoint_entries path (S i) bps outs), s')
      /\ steady s'
      /\ same_outside_gdb s s'.
Proof.
  induction bps as [|bp bps IH]; intros i acc s Hd Hs.
  - exists [], s. cbn. rewrite app_nil_r.
    split; [apply installs_nil|]. split; [reflexivity|].
    split; [reflexivity|]. split; [assumption|].
    unfold same_outside_gdb; repeat split.
  - inversion Hd as [|? ? [kvs ->] Hd']; subst.
    destruct (send_gdb_command_steady (install_cmd py_repr path (JDict kvs)) _ Hs)
      as (s1 & E1 & Hs1 & Hf1 & _).
    destruct (read_gdb_until_prompt_only_reads s1) as (out & s2 & E2 & Hr2).
    assert (Hs2 : steady s2) by eauto using only_read_steady.
    destruct (IH (S i)
                 (acc ++ [breakpoint_entry path (S i) (JDict kvs) out]) s2 Hd' Hs2)
      as (outs & s' & Hi & Hl & E3 & Hs' & Hf').
    exists (out :: outs), s'.
    split; [|split; [|split; [|split]]].
    + eapply installs_cons; [|exact Hi]. unfold bind. now rewrite E1.
    + cbn. now rewrite Hl.
    + cbn [install_breakpoints]. unfold bind, lift. cbn [py_get].
      unfold install_cmd, get_or in E1. rewrite E1, E2.
      replace (Z.of_nat i + 1)%Z with (Z.of_nat (S i)) by lia.
      unfold breakpoint_entry, get_or in E3. rewrite E3.
      cbn [breakpoint_entries]. rewrite <- app_assoc. reflexivity.
    + exact Hs'.
    + destruct Hr2 as [Hr2 _]. eauto using same_outside_gdb_trans.
Qed.

Lemma handle_setBreakpoints_steady
    (request args source path breakpoints rs cmd : json) (bps : list json)
    (s : state) :
  py_get args (lit "source") (JDict []) = Ok source ->
  py_get source (lit "path") (JStr []) = Ok path ->
  py_get args (lit "breakpoints") (JList []) = Ok breakpoints ->
  py_iter breakpoints = Ok bps ->
  Forall is_dict bps ->
  py_index request (lit "seq") = Ok rs ->
  py_index request (lit "command") = Ok cmd ->
  steady s ->
  exists (out0 : pystr) (outs : list pystr) (s1 s2 : state),
    (_send_gdb_command (lit "-break-delete") ;; _read_gdb_until_prompt) s
    = (Ok out0, s1)
    /\ installs py_repr path bps s1 outs s2
    /\ List.length (breakpoint_entries path 1 bps outs) = List.length bps
    /\ (forall k bp out,
           nth_error bps k = Some bp ->
           nth_error outs k = Some out ->
           nth_error (breakpoint_entries path 1 bps outs) k
           = Some (JDict [(lit "id", JInt (Z.of_nat (S k)));
                          (lit "verified", JBool (contains (lit "done") (lower out)));
                          (lit "line", get_or bp "line" JNull);
                          (lit "source", JDict [(lit "path", path)])])
           /\ (contains (lit "done") (lower out) = true
               <-> contains_ignoring_case (lit "done") out))
    /\ handle_setBreakpoints py_repr request args s
       = send_message
           (success_response (seq s + 1) rs cmd
              (JDict [(lit "breakpoints", JList (breakpoint_entries path 1 bps outs))]))
           (set_seq (seq s + 1) s2).
Proof.
  intros Hsrc Hpath Hbps Hiter Hd Hrs Hcmd Hs.
  destruct (send_gdb_command_steady (lit "-break-delete") _ Hs)
    as (sa & Ea & Hsa & Hfa & _).
  destruct (read_gdb_until_prompt_only_reads sa) as (out0 & s1 & Eb & Hrb).
  assert (Hs1 : steady s1) by eauto using only_read_steady.
  destruct (install_breakpoints_steady path 0 [] s1 Hd Hs1)
    as (outs & s2 & Hi & Hl & Ei & Hs2 & Hf2).
  exists out0, outs, s1, s2.
  split; [|split; [|split; [|split]]].
  - unfold bind. now rewrite Ea.
  - exact Hi.
  - now apply breakpoint_entries_length.
  - intros k bp out Hb Ho. split; [|apply contains_lower_spec].
    rewrite (breakpoint_entries_nth path bps 1 outs k Hb Ho). reflexivity.
  - unfold handle_setBreakpoints, bind, lift.
    rewrite Hsrc, Hpath, Hbps, Ea, Eb, Hiter.
    change 0%Z with (Z.of_nat 0). rewrite Ei. cbn [app].
    rewrite (send_response_success _ _ s2 Hrs Hcmd) by reflexivity.
    assert (Hq : seq s2 = seq s).
    { destruct Hrb as [Hrb _].
      pose proof (same_outside_gdb_trans Hfa (same_outside_gdb_trans Hrb Hf2)) as H.
      unfold same_outside_gdb in H. tauto. }
    now rewrite Hq.
Qed.


End Breakpoints.

Section ClearThenInstall.

Variable py_repr : json -> pystr.

Lemma install_step_stdin (command : pystr) (s s1 : state) (p : proc) (out : pystr) :
  steady s ->
  gdb_process s = Some p ->
  (_send_gdb_command command ;; _read_gdb_until_prompt) s = (Ok out, s1) ->
  steady s1
  /\ same_outside_gdb s s1
  /\ exists rest, gdb_process s1 = Some (read_up_to rest (take_line command p)).
Proof.
  intros Hs Hp E. unfold bind in E.
  destruct (send_gdb_command_steady command _ Hs) as (sa & Ea & Hsa & Hfa & Hg).
  rewrite Ea, Hp in *.
  destruct (read_gdb_until_prompt_only_reads sa) as (out' & s' & Eb & [Hf Hr]).
  rewrite Eb in E. inversion E; subst.
  split; [eapply only_read_steady; eauto; split; auto|].
  split; [eauto using same_outside_gdb_trans|].
  rewrite Hg in Hr. destruct (gdb_process s1) as [p1|]; [|contradiction].
  destruct Hr as [rest ->]. exists rest. reflexivity.
Qed.

Lemma installs_stdin (path : json) (bps : list json) (s s' : state)
    (outs : list pystr) :
  installs py_repr path bps s outs s' ->
  forall p,
    steady s ->
    gdb_process s = Some p ->
    steady s'
    /\ exists p', gdb_process s' = Some p'
                  /\ p_stdin p'
                     = p_stdin p
                       ++ map (fun bp => install_cmd py_repr path bp ++ [LF]) bps.
Proof.
  induction 1 as [s|bp bps s s1 s2 out outs E _ IH]; intros p Hs Hp.
  - split; [assumption|]. exists p. cbn. now rewrite app_nil_r.
  - destruct (@install_step_stdin _ _ _ _ _ Hs Hp E) as (Hs1 & _ & rest & Hp1).
    destruct (IH _ Hs1 Hp1) as (Hs2 & p' & Hp' & Hin).
    split; [assumption|]. exists p'. split; [assumption|].
    rewrite Hin. cbn. now rewrite <- app_assoc.
Qed.


End ClearThenInstall.


(** ** Launching *)

Lemma alive_read_up_to (rest : list pystr) (p : proc) :
  alive (read_up_to rest p) = alive p.
Proof. reflexivity. Qed.

Lemma send_gdb_command_cases (command : pystr) (s : state) (p : proc) :
  gdb_process s = Some p ->
  (alive p = true
   /\ _send_gdb_command command s
      = (Ok tt, set_gdb_process (Some (take_line command p)) s))
  \/ (alive p = false /\ _send_gdb_command command s = (Raise broken_pipe, s)).
Proof.
  intros Hp. unfold _send_gdb_command. rewrite Hp.
  destruct (alive p); [left|right]; auto.
Qed.

Lemma quiet_read (p0 : proc) (s s1 : state) :
  quiet_with p0 s s1 ->
  exists out s2, _read_gdb_until_prompt s1 = (Ok out, s2) /\ quiet_with p0 s s2.
Proof.
  intros (Hq & Hw & Hc & Hf & Ho & p & Hp & Hpid).
  destruct (read_gdb_until_prompt_only_reads s1) as (out & s2 & E & [Hsame Hr]).
  exists out, s2. split; [exact E|].
  unfold same_outside_gdb in Hsame.
  repeat match goal with H : _ /\ _ |- _ => destruct H end.
  unfold quiet_with. repeat split; try congruence.
  rewrite Hp in Hr. destruct (gdb_process s2) as [p2|]; [|contradiction].
  destruct Hr as [rest ->]. exists (read_up_to rest p). auto.
Qed.

Lemma quiet_write (p0 : proc) (command : pystr) (s s1 : state) :
  quiet_with p0 s s1 ->
  (exists s2, _send_gdb_command command s1 = (Ok tt, s2) /\ quiet_with p0 s s2)
  \/ (_send_gdb_command command s1 = (Raise broken_pipe, s1)
      /\ exists p, gdb_process s1 = Some p /\ alive p = false).
Proof.
  intros (Hq & Hw & Hc & Hf & Ho & p & Hp & Hpid).
  destruct (send_gdb_command_cases command s1 Hp) as [[Ha E]|[Ha E]].
  - left. eexists. split; [exact E|].
    unfold quiet_with. cbn. repeat split; auto.
    exists (take_line command p). auto.
  - right. split; [exact E|]. eauto.
Qed.

Lemma send_response_returns (request body rs cmd : json) (success : bool)
    (message : pystr) (s : state) :
  py_index request (lit "seq") = Ok rs ->
  py_index request (lit "command") = Ok cmd ->
  exists s', send_response request body success message s = (Ok tt, s')
             /\ gdb_process s' = gdb_process s.
Proof.
  intros Hs Hc.
  unfold send_response, build_response, incr_seq, modify, bind, get, lift, ret.
  rewrite Hs, Hc.
  match goal with
  | |- context [send_message ?m ?st] =>
      destruct (send_message_effect m st) as (s' & -> & Hsame & _)
  end.
  exists s'. split; [reflexivity|].
  now destruct (same_but_socket_fields Hsame) as (-> & _).
Qed.

(** Where the [try] block of a launch can raise: in [Popen], or in a
    write to a debugger that has exited; in either case before anything
    was sent to the client. *)
Lemma launch_body_raises (request program cwd stop_on_entry rs cmd : json)
    (s s1 : state) (e : exn) :
  py_index request (lit "seq") = Ok rs ->
  py_index request (lit "command") = Ok cmd ->
  launch_body request program cwd stop_on_entry s = (Raise e, s1) ->
  seq s1 = seq s /\ wire s1 = wire s /\ client_socket s1 = client_socket s
  /\ send_faults s1 = send_faults s
  /\ ((gdb_process s1 = gdb_process s /\ orphans s1 = orphans s)
      \/ (e = broken_pipe
          /\ orphans s1 = orphans s ++ match gdb_process s with
                                       | Some old => [old]
                                       | None => []
                                       end
          /\ exists p, gdb_process s1 = Some p /\ alive p = false)).
Proof.
  intros Hrs Hcmd. unfold launch_body, bind at 1, Popen.
  destruct (popen_next s) as [|[p0|e0] rest] eqn:Hn.
  - intros E; inversion E; subst. repeat split; auto.
  - set (sa := set_popen_next rest s).
    unfold bind at 1, assign_gdb_process, modify.
    set (sb := set_gdb_process (Some p0) _).
    assert (Hb : seq sb = seq s /\ wire sb = wire s
                 /\ client_socket sb = client_socket s
                 /\ send_faults sb = send_faults s
                 /\ orphans sb = orphans s ++ match gdb_process s with
                                              | Some old => [old]
                                              | None => []
                                              end
                 /\ exists p, gdb_process sb = Some p /\ pid p = pid p0).
    { subst sb sa. change (gdb_process (set_popen_next rest s)) with (gdb_process s).
      destruct (gdb_process s); cbn; rewrite ?app_nil_r; repeat split; eauto. }
    clearbody sb. clear sa.
    assert (H0 : quiet_with p0 sb sb).
    { destruct Hb as (_ & _ & _ & _ & _ & p & Hp & Hpid).
      unfold quiet_with. repeat split; eauto. }
    destruct (quiet_read H0) as (out1 & s2 & E1 & H2).
    unfold bind at 1. rewrite E1.
    assert (Hfail : forall s', quiet_with p0 sb s' ->
                    (exists p, gdb_process s' = Some p /\ alive p = false) ->
                    seq s' = seq s /\ wire s' = wire s
                    /\ client_socket s' = client_socket s
                    /\ send_faults s' = send_faults s
                    /\ ((gdb_process s' = gdb_process s /\ orphans s' = orphans s)
                        \/ (broken_pipe = broken_pipe
                            /\ orphans s' = orphans s ++ match gdb_process s with
                                                         | Some old => [old]
                                                         | None => []
                                                         end
                            /\ exists p, gdb_process s' = Some p /\ alive p = false))).
    { intros s' (Hq & Hw & Hc & Hf & Ho & _) Hp.
      destruct Hb as (Hq0 & Hw0 & Hc0 & Hf0 & Ho0 & _).
      repeat split; try congruence. right. repeat split; auto. congruence. }
    assert (Hrun : forall s3, quiet_with p0 sb s3 ->
              (_send_gdb_command (lit "-exec-run") ;;
               output <- _read_gdb_until_prompt ;;
               send_response request JNull true [] ;;
               n <- gdb_pid ;;
               send_event (lit "process")
                 (JDict [(lit "name", program); (lit "systemProcessId", JInt n);
                         (lit "isLocalProcess", JBool true);
                         (lit "startMethod", JStr (lit "launch"))]) ;;
               when (contains (lit "*stopped") output)
                    (send_event (lit "stopped")
                       (stopped_body (if py_truthy stop_on_entry
                                      then lit "entry" else lit "breakpoint")))) s3
              = (Raise e, s1) ->
              seq s1 = seq s /\ wire s1 = wire s
              /\ client_socket s1 = client_socket s
              /\ send_faults s1 = send_faults s
              /\ ((gdb_process s1 = gdb_process s /\ orphans s1 = orphans s)
                  \/ (e = broken_pipe
                      /\ orphans s1 = orphans s ++ match gdb_process s with
                                                   | Some old => [old]
                                                   | None => []
                                                   end
                      /\ exists p, gdb_process s1 = Some p /\ alive p = false))).
    { intros s3 H3. unfold bind at 1.
      destruct (quiet_write (lit "-exec-run") H3) as [(s4 & E4 & H4)|[E4 Hdead]].
      - rewrite E4. destruct (quiet_read H4) as (out & s5 & E5 & H5).
        unfold bind at 1. rewrite E5. unfold bind at 1.
        destruct (@send_response_returns request JNull rs cmd true [] s5 Hrs Hcmd)
          as (s6 & E6 & Hg6).
        rewrite E6. unfold bind at 1, gdb_pid.
        destruct H5 as (_ & _ & _ & _ & _ & p5 & Hp5 & _).
        rewrite Hg6, Hp5. unfold bind at 1.
        match goal with
        | |- context [send_event ?ev ?b ?st] =>
            destruct (send_event_effect ev b st) as (s7 & -> & _)
        end.
        destruct (contains (lit "*stopped") out); cbn [when].
        + match goal with
          | |- context [send_event ?ev ?b ?st] =>
              destruct (send_event_effect ev b st) as (s8 & -> & _)
          end. discriminate.
        + discriminate.
      - rewrite E4. intros E; inversion E; subst. now apply Hfail. }
    destruct (py_truthy stop_on_entry); cbn [when].
    + unfold bind at 1, bind at 1.
      destruct (quiet_write (lit "-break-insert main") H2)
        as [(s3 & E3 & H3)|[E3 Hdead]].
      * rewrite E3. destruct (quiet_read H3) as (out & s4 & E4 & H4).
        unfold bind at 1. rewrite E4. cbn [ret]. now apply Hrun.
      * rewrite E3. intros E; inversion E; subst. now apply Hfail.
    + unfold bind at 1. cbn [ret]. now apply Hrun.
  - intros E; inversion E; subst. cbn. repeat split; auto.
Qed.

Lemma handle_launch_unfold (request args : json) (s : state) :
  is_dict args ->
  handle_launch request args s
  = try_except (launch_attempt request args s)
               (fun e => send_response request JNull false (text e)) s.
Proof. intros [kvs ->]. reflexivity. Qed.



(** ** Numbering the messages *)

Lemma ascending_weaken (msgs : list (nat * json)) (lo lo' hi : Z) :
  (lo' <= lo)%Z -> ascending lo msgs hi -> ascending lo' msgs hi.
Proof.
  destruct msgs as [|cm rest]; cbn; [lia|].
  intros H (k & Hk & Hlt & Hr). exists k. repeat split; auto. lia.
Qed.

Lemma ascending_bounds (msgs : list (nat * json)) :
  forall lo hi, ascending lo msgs hi -> (lo <= hi)%Z.
Proof.
  induction msgs as [|cm rest IH]; cbn; intros lo hi H; [exact H|].
  destruct H as (k & _ & Hlt & Hr). apply IH in Hr. lia.
Qed.

Lemma ascending_app (m1 m2 : list (nat * json)) :
  forall lo mid hi,
    ascending lo m1 mid -> ascending mid m2 hi -> ascending lo (m1 ++ m2) hi.
Proof.
  induction m1 as [|cm rest IH]; cbn; intros lo mid hi H1 H2.
  - eapply ascending_weaken; eauto.
  - destruct H1 as (k & Hk & Hlt & Hr). exists k. repeat split; eauto.
Qed.

Lemma sends_in_order_refl (s : state) : sends_in_order s s.
Proof.
  split; [reflexivity|]. exists []. cbn. rewrite app_nil_r.
  repeat split; auto. lia.
Qed.

Lemma sends_in_order_trans (s1 s2 s3 : state) :
  sends_in_order s1 s2 -> sends_in_order s2 s3 -> sends_in_order s1 s3.
Proof.
  intros (Hc1 & m1 & Hw1 & Ha1 & Hf1) (Hc2 & m2 & Hw2 & Ha2 & Hf2).
  split; [congruence|]. exists (m1 ++ m2). repeat split.
  - rewrite Hw2, Hw1. unfold frames_on. now rewrite map_app, app_assoc.
  - eapply ascending_app; eauto.
  - apply Forall_app. split; [assumption|]. now rewrite <- Hc1.
Qed.

Lemma silent_in_order (s s' : state) : silent s s' -> sends_in_order s s'.
Proof.
  intros (Hq & Hw & Hc). split; [assumption|]. exists []. cbn.
  rewrite app_nil_r. repeat split; auto. lia.
Qed.

Lemma quietly_orderly {A} (m : M A) : quietly m -> orderly m.
Proof. intros H s. apply silent_in_order, H. Qed.

Lemma orderly_ret {A} (a : A) : orderly (ret a).
Proof. intros s. apply sends_in_order_refl. Qed.

Lemma orderly_raise {A} (e : exn) : orderly (@raise A e).
Proof. intros s. apply sends_in_order_refl. Qed.

Lemma orderly_lift {A} (r : result A) : orderly (lift r).
Proof. intros s. apply sends_in_order_refl. Qed.

Lemma orderly_get {A} (f : state -> A) : orderly (get f).
Proof. intros s. apply sends_in_order_refl. Qed.

Lemma orderly_bind {A B} (m : M A) (k : A -> M B) :
  orderly m -> (forall a, orderly (k a)) -> orderly (bind m k).
Proof.
  intros Hm Hk s. unfold bind. specialize (Hm s).
  destruct (m s) as [[a|e] s1]; cbn in *; [|exact Hm].
  eapply sends_in_order_trans; [exact Hm|apply Hk].
Qed.

Lemma orderly_try_except {A} (m : M A) (h : exn -> M A) :
  orderly m -> (forall e, orderly (h e)) -> orderly (try_except m h).
Proof.
  intros Hm Hh s. unfold try_except. specialize (Hm s).
  destruct (m s) as [[a|e] s1]; cbn in *; [exact Hm|].
  eapply sends_in_order_trans; [exact Hm|apply Hh].
Qed.

Lemma orderly_try_finally {A} (m : M A) (f : M unit) :
  orderly m -> orderly f -> orderly (try_finally m f).
Proof.
  intros Hm Hf s. unfold try_finally. specialize (Hm s).
  destruct (m s) as [r s1]; cbn in *. specialize (Hf s1).
  destruct (f s1) as [[[]|e] s2]; cbn in *;
    eapply sends_in_order_trans; eauto.
Qed.

Lemma orderly_when (b : bool) (m : M unit) : orderly m -> orderly (when b m).
Proof. destruct b; cbn; auto using orderly_ret. Qed.

Lemma seq_of_numbered (n : Z) (rest : list (pystr * json)) :
  seq_of (JDict ((lit "seq", JInt n) :: rest)) = Some n.
Proof. reflexivity. Qed.

(** A message numbered with the counter just advanced, sent or lost. *)
Lemma send_numbered (msg : json) (s : state) :
  seq_of msg = Some (seq s + 1)%Z ->
  sends_in_order s (snd (send_message msg (set_seq (seq s + 1) s))).
Proof.
  intros Hn.
  destruct (send_message_effect msg (set_seq (seq s + 1) s))
    as (s' & -> & Hsame & Hsock & Hw).
  cbn [snd]. destruct (same_but_socket_fields Hsame) as (_ & Hq & _).
  cbn in Hq, Hsock.
  split; [unfold conn_of; now rewrite Hsock|].
  destruct Hw as [Hw|(sk & Hsk & Hw)].
  - cbn in Hw. exists []. cbn. rewrite app_nil_r. repeat split; auto. lia.
  - cbn in Hw, Hsk. exists [(conn sk, msg)]. cbn. repeat split; auto.
    + exists (seq s + 1)%Z. repeat split; auto; lia.
    + constructor; [|constructor]. unfold conn_of. now rewrite Hsk.
Qed.

Lemma orderly_send_response (request body : json) (success : bool)
    (message : pystr) :
  orderly (send_response request body success message).
Proof.
  intros s.
  unfold send_response, build_response, incr_seq, modify, bind, get, lift, ret.
  assert (Hstep : sends_in_order s (set_seq (seq s + 1) s)).
  { split; [reflexivity|]. exists []. cbn. rewrite app_nil_r.
    repeat split; auto. lia. }
  destruct (py_index request (lit "seq")) as [rs|e]; [|exact Hstep].
  destruct (py_index request (lit "command")) as [cmd|e]; [|exact Hstep].
  apply send_numbered. reflexivity.
Qed.

Lemma orderly_send_event (event : pystr) (body : json) :
  orderly (send_event event body).
Proof.
  intros s. unfold send_event, build_event, incr_seq, modify, bind, get, ret.
  apply send_numbered. reflexivity.
Qed.

Lemma silent_refl (s : state) : silent s s.
Proof. repeat split. Qed.

Lemma quietly_send_gdb_command (command : pystr) :
  quietly (_send_gdb_command command).
Proof.
  intros s. unfold _send_gdb_command.
  destruct (gdb_process s) as [p|]; [|apply silent_refl].
  destruct (alive p); repeat split.
Qed.

Lemma quietly_read_gdb_until_prompt : quietly _read_gdb_until_prompt.
Proof.
  intros s. destruct (read_gdb_until_prompt_only_reads s)
    as (out & s' & -> & [Hsame _]).
  unfold same_outside_gdb in Hsame.
  repeat match goal with H : _ /\ _ |- _ => destruct H end.
  unfold silent, conn_of. cbn. repeat split; congruence.
Qed.

Lemma quietly_readline : quietly readline.
Proof.
  intros s. unfold readline. destruct (gdb_process s) as [p|]; [|apply silent_refl].
  destruct (p_stdout p); repeat split.
Qed.

Lemma quietly_Popen (program cwd : json) : quietly (Popen program cwd).
Proof.
  intros s. unfold Popen. destruct (popen_next s) as [|[p|e] rest]; repeat split.
Qed.

Lemma quietly_assign_gdb_process (p : proc) : quietly (assign_gdb_process p).
Proof.
  intros s. unfold assign_gdb_process, modify. cbn.
  destruct (gdb_process s); repeat split.
Qed.

Lemma quietly_terminate : quietly terminate.
Proof. intros s. unfold terminate. destruct (gdb_process s); repeat split. Qed.

Lemma quietly_gdb_pid : quietly gdb_pid.
Proof. intros s. unfold gdb_pid. destruct (gdb_process s); repeat split. Qed.

Lemma quietly_start_watcher : quietly start_watcher.
Proof. intros s. repeat split. Qed.

Lemma quietly_set_running (v : bool) : quietly (modify (set_running v)).
Proof. intros s. repeat split. Qed.

Lemma quietly_close_socket :
  quietly (modify (fun s => match client_socket s with
                            | Some sk => set_client_socket (Some (mkSocket (conn sk) true)) s
                            | None => s
                            end)).
Proof.
  intros s. unfold modify. cbn. unfold silent, conn_of.
  destruct (client_socket s) as [sk|] eqn:E; cbn; rewrite ?E; repeat split.
Qed.

Create HintDb orderly.

#[local] Hint Resolve orderly_ret orderly_raise orderly_lift orderly_get
  orderly_send_response orderly_send_event : orderly.
#[local] Hint Extern 1 (orderly (_send_gdb_command _)) =>
  apply quietly_orderly, quietly_send_gdb_command : orderly.
#[local] Hint Extern 1 (orderly _read_gdb_until_prompt) =>
  apply quietly_orderly, quietly_read_gdb_until_prompt : orderly.
#[local] Hint Extern 1 (orderly readline) =>
  apply quietly_orderly, quietly_readline : orderly.
#[local] Hint Extern 1 (orderly (Popen _ _)) =>
  apply quietly_orderly, quietly_Popen : orderly.
#[local] Hint Extern 1 (orderly (assign_gdb_process _)) =>
  apply quietly_orderly, quietly_assign_gdb_process : orderly.
#[local] Hint Extern 1 (orderly terminate) =>
  apply quietly_orderly, quietly_terminate : orderly.
#[local] Hint Extern 1 (orderly gdb_pid) =>
  apply quietly_orderly, quietly_gdb_pid : orderly.
#[local] Hint Extern 1 (orderly start_watcher) =>
  apply quietly_orderly, quietly_start_watcher : orderly.
#[local] Hint Extern 1 (orderly has_process) => apply orderly_get : orderly.
#[local] Hint Extern 1 (orderly (modify (set_running _))) =>
  apply quietly_orderly, quietly_set_running : orderly.

Ltac orderly :=
  repeat first
    [ progress auto with orderly
    | apply orderly_bind; [|intros]
    | apply orderly_try_except; [|intros]
    | apply orderly_when
    | match goal with
      | |- orderly (if ?b then _ else _) => destruct b
      | |- orderly (match ?x with _ => _ end) => destruct x
      end ].

Section OrderlyHandlers.

Variable py_repr : json -> pystr.
Variable re_frames : pystr -> list frame_match.
Variable re_vars : pystr -> list var_match.
Variable re_value : pystr -> option pystr.
Variable json_loads : pystr -> option json.

Lemma orderly_install_breakpoints (path : json) (bps : list json) :
  forall i acc, orderly (install_breakpoints py_repr path i bps acc).
Proof.
  induction bps as [|bp bps IH]; intros i acc; cbn [install_breakpoints].
  - apply orderly_ret.
  - orderly; apply IH.
Qed.

Lemma orderly_launch_body (request program cwd stop_on_entry : json) :
  orderly (launch_body request program cwd stop_on_entry).
Proof. unfold launch_body. orderly. Qed.

Lemma orderly_handler (name : pystr) (h : json -> json -> M unit) :
  getattr_handler name (handler_table py_repr re_frames re_vars re_value) = Some h ->
  forall request args, orderly (h request args).
Proof.
  unfold handler_table. cbn [getattr_handler].
  repeat match goal with
         | |- context [if ?b then _ else _] => destruct b
         end;
    intros H; inversion H; subst; clear H; intros request args.
  all: try (unfold wrong_arity; apply orderly_raise).
  all: unfold handle_initialize, handle_launch, handle_setBreakpoints,
         handle_configurationDone, handle_threads, handle_stackTrace,
         handle_scopes, handle_variables, handle_continue, handle_next,
         handle_stepIn, handle_stepOut, handle_step, handle_evaluate,
         handle_disconnect, handle_terminate.
  all: orderly; first [apply orderly_launch_body | apply orderly_install_breakpoints].
Qed.

Lemma orderly_handle_dap_message (message : json) :
  orderly (handle_dap_message py_repr re_frames re_vars re_value message).
Proof.
  unfold handle_dap_message.
  apply orderly_bind; [apply orderly_lift|]. intros msg_type.
  destruct (is_str msg_type (lit "request")); [|apply orderly_ret].
  apply orderly_bind; [apply orderly_lift|]. intros command.
  apply orderly_bind; [apply orderly_lift|]. intros args.
  destruct (getattr_handler (py_str py_repr command) _) as [h|] eqn:E.
  - eapply orderly_handler; eauto.
  - apply orderly_send_response.
Qed.

Lemma orderly_parse_loop (fuel : nat) :
  forall buffer,
    orderly (parse_loop py_repr re_frames re_vars re_value json_loads fuel buffer).
Proof.
  induction fuel as [|f IH]; intros buffer; cbn [parse_loop]; [apply orderly_ret|].
  destruct (decode_frame buffer) as [[message buffer']|]; [|apply orderly_ret].
  destruct (json_loads message) as [v|]; [|apply orderly_raise].
  apply orderly_bind; [apply orderly_handle_dap_message|]. intros _. apply IH.
Qed.

Lemma orderly_recv_loop (chunks : list bytes) :
  forall buffer,
    orderly (recv_loop py_repr re_frames re_vars re_value json_loads chunks buffer).
Proof.
  induction chunks as [|data rest IH]; intros buffer; cbn [recv_loop].
  - apply orderly_bind; [apply orderly_get|]. intros [|]; apply orderly_ret.
  - apply orderly_bind; [apply orderly_get|]. intros [|]; [|apply orderly_ret].
    destruct data as [|b data]; [apply orderly_ret|].
    destruct (utf8_decode (b :: data)) as [text|]; [|apply orderly_raise].
    apply orderly_bind; [apply orderly_parse_loop|]. intros buffer2. apply IH.
Qed.

Lemma orderly_close_client : orderly close_client.
Proof.
  unfold close_client.
  apply orderly_bind; [apply orderly_get|]. intros b.
  apply orderly_bind.
  - apply orderly_when, quietly_orderly, quietly_terminate.
  - intros _. apply quietly_orderly, quietly_close_socket.
Qed.

Lemma orderly_handle_client (chunks : list bytes) :
  orderly (handle_client py_repr re_frames re_vars re_value json_loads chunks).
Proof.
  unfold handle_client. apply orderly_try_finally; [|apply orderly_close_client].
  apply orderly_try_except; [|intros; apply orderly_ret].
  apply orderly_bind; [apply orderly_recv_loop|intros; apply orderly_ret].
Qed.

End OrderlyHandlers.

(** ** One counter for all connections *)

Lemma ordered_from_weaken (msgs : list (nat * json)) (c c' : nat) (n n' : Z) :
  (c' <= c)%nat -> (n' <= n)%Z -> ordered_from c n msgs -> ordered_from c' n' msgs.
Proof.
  destruct msgs as [|cm rest]; cbn; [auto|].
  intros Hc Hn (Hle & k & Hk & Hlt & Hr). split; [lia|].
  exists k. repeat split; auto. lia.
Qed.

Lemma ordered_from_app (m1 m2 : list (nat * json)) :
  forall c0 n0 c n,
    ordered_from c0 n0 m1 ->
    Forall (fun cm => (fst cm <= c)%nat
                      /\ exists k, seq_of (snd cm) = Some k /\ (k <= n)%Z) m1 ->
    (c0 <= c)%nat -> (n0 <= n)%Z ->
    ordered_from c n m2 ->
    ordered_from c0 n0 (m1 ++ m2).
Proof.
  induction m1 as [|cm rest IH]; cbn; intros c0 n0 c n H1 Hall Hc Hn H2.
  - eapply ordered_from_weaken; eauto.
  - destruct H1 as (Hle & k & Hk & Hlt & Hr).
    inversion Hall as [|? ? (Hc' & k' & Hk' & Hle') Hall']; subst.
    rewrite Hk in Hk'. inversion Hk'; subst k'.
    split; [assumption|]. exists k. repeat split; auto.
    eapply IH; eauto.
Qed.

Lemma ascending_ordered (msgs : list (nat * json)) (c : nat) :
  forall lo hi,
    ascending lo msgs hi ->
    Forall (fun cm => Some c = Some (fst cm)) msgs ->
    ordered_from c lo msgs
    /\ Forall (fun cm => (fst cm <= c)%nat
                         /\ exists k, seq_of (snd cm) = Some k /\ (k <= hi)%Z) msgs.
Proof.
  induction msgs as [|cm rest IH]; cbn; intros lo hi Ha Hf; [auto|].
  destruct Ha as (k & Hk & Hlt & Hr).
  inversion Hf as [|? ? Hc Hf']; subst. injection Hc as Hc'.
  destruct (IH k hi Hr Hf') as [Ho Hall].
  split.
  - split; [lia|]. exists k. repeat split; auto. now rewrite <- Hc'.
  - constructor; [|assumption]. split; [lia|]. exists k. split; [assumption|].
    apply ascending_bounds in Hr. exact Hr.
Qed.

Lemma ordered_from_members (msgs : list (nat * json)) :
  forall c n cm,
    ordered_from c n msgs -> In cm msgs ->
    (c <= fst cm)%nat /\ exists k, seq_of (snd cm) = Some k /\ (n < k)%Z.
Proof.
  induction msgs as [|x rest IH]; cbn; intros c n cm H Hin; [contradiction|].
  destruct H as (Hle & k & Hk & Hlt & Hr). destruct Hin as [->|Hin].
  - split; [assumption|]. eauto.
  - destruct (IH _ _ _ Hr Hin) as (Hc & k' & Hk' & Hlt').
    split; [lia|]. exists k'. split; [assumption|lia].
Qed.

(** In an ordered list, a message on a later connection carries a larger
    number than any message on an earlier one. *)
Lemma ordered_from_across (msgs : list (nat * json)) :
  forall c n cm1 cm2,
    ordered_from c n msgs -> In cm1 msgs -> In cm2 msgs ->
    (fst cm1 < fst cm2)%nat ->
    exists n1 n2, seq_of (snd cm1) = Some n1 /\ seq_of (snd cm2) = Some n2
                  /\ (n1 < n2)%Z.
Proof.
  induction msgs as [|x rest IH]; cbn; intros c n cm1 cm2 H H1 H2 Hlt;
    [contradiction|].
  destruct H as (Hle & k & Hk & Hn & Hr).
  destruct H1 as [->|H1], H2 as [->|H2].
  - lia.
  - destruct (@ordered_from_members _ _ _ _ Hr H2) as (_ & k2 & Hk2 & Hlt2).
    exists k, k2. auto.
  - destruct (@ordered_from_members _ _ _ _ Hr H1) as (Hc1 & _). lia.
  - eapply IH; eauto.
Qed.

Section Connections.

Variable py_repr : json -> pystr.
Variable re_frames : pystr -> list frame_match.
Variable re_vars : pystr -> list var_match.
Variable re_value : pystr -> option pystr.
Variable json_loads : pystr -> option json.

Local Abbreviation client :=
  (handle_client py_repr re_frames re_vars re_value json_loads).
Local Abbreviation accept :=
  (accept_loop py_repr re_frames re_vars re_value json_loads).

Lemma accept_loop_unfold (chunks : list bytes) (rest : list (list bytes))
    (next : nat) (s : state) :
  accept (chunks :: rest) next s
  = if running s then
      match client chunks (set_client_socket (Some (mkSocket next false)) s) with
      | (Ok _, s2) => accept rest (S next) s2
      | (Raise _, s2) => (Ok tt, s2)
      end
    else (Ok tt, s).
Proof.
  cbn [accept_loop]. unfold bind at 1, get. destruct (running s); [|reflexivity].
  unfold bind at 1, try_except, bind at 1, modify, bind at 1.
  destruct (client chunks _) as [[[]|e] s2]; reflexivity.
Qed.

Lemma accept_loop_ordered (connections : list (list bytes)) :
  forall next s msgs,
    wire s = frames_on msgs ->
    ordered_from 0 0 msgs ->
    Forall (fun cm => (fst cm <= next)%nat
                      /\ exists k, seq_of (snd cm) = Some k /\ (k <= seq s)%Z) msgs ->
    (0 <= seq s)%Z ->
    (forall cm, In cm msgs -> (fst cm < next)%nat) ->
    exists msgs',
      wire (snd (accept connections next s)) = frames_on msgs'
      /\ ordered_from 0 0 msgs'
      /\ (seq s <= seq (snd (accept connections next s)))%Z.
Proof.
  induction connections as [|chunks rest IH]; intros next s msgs Hw Ho Hall Hq Hlt.
  - exists msgs. cbn [accept_loop]. unfold bind, get.
    destruct (running s); cbn; repeat split; auto; lia.
  - rewrite accept_loop_unfold. destruct (running s);
      [|exists msgs; cbn; repeat split; auto; lia].
    set (s1 := set_client_socket (Some (mkSocket next false)) s).
    pose proof (orderly_handle_client py_repr re_frames re_vars re_value
                  json_loads chunks s1) as (Hc & m' & Hw' & Ha & Hf).
    destruct (client chunks s1) as [r s2]. cbn [snd] in *.
    change (wire s1) with (wire s) in Hw'. change (seq s1) with (seq s) in Ha.
    change (conn_of s1) with (Some next) in Hf.
    destruct (@ascending_ordered m' next _ _ Ha Hf) as [Ho' Hall'].
    assert (Hbound : (seq s <= seq s2)%Z) by (eapply ascending_bounds; eauto).
    assert (Hw2 : wire s2 = frames_on (msgs ++ m')).
    { rewrite Hw', Hw. unfold frames_on. now rewrite map_app. }
    assert (Ho2 : ordered_from 0 0 (msgs ++ m')).
    { eapply ordered_from_app; eauto; lia. }
    destruct r as [[]|e].
    + destruct (IH (S next) s2 (msgs ++ m')) as (msgs' & Hwf & Hof & Hqf); auto.
      * apply Forall_app. split.
        -- eapply Forall_impl; [|exact Hall].
           intros cm (Hcm & k & Hk & Hle). split; [lia|]. exists k. split; auto. lia.
        -- eapply Forall_impl; [|exact Hall'].
           intros cm (Hcm & k & Hk & Hle). split; [lia|]. eauto.
      * lia.
      * intros cm Hin. apply in_app_or in Hin as [Hin|Hin].
        -- specialize (Hlt _ Hin). lia.
        -- rewrite Forall_forall in Hall'. destruct (Hall' _ Hin). lia.
      * exists msgs'. repeat split; auto. lia.
    + exists (msgs ++ m'). cbn. repeat split; auto.
Qed.


End Connections.

(** ** The handler thread and the watcher thread *)

Lemma bind_ret_unit (m : M unit) (s : state) : (m ;; ret tt) s = m s.
Proof. unfold bind, ret. destruct (m s) as [[[]|e] s']; reflexivity. Qed.

Lemma bind_ext {A B} (m : M A) (k1 k2 : A -> M B) (s : state) :
  (forall a s', k1 a s' = k2 a s') -> bind m k1 s = bind m k2 s.
Proof. intros H. unfold bind. destruct (m s) as [[a|e] s']; auto. Qed.

(** The steps of [send_response_t], run in a row, are [send_response]. *)
Lemma send_response_t_alone (request body : json) (success : bool)
    (message : pystr) (k : thread) (s : state) :
  run_alone (send_response_t request body success message k) s
  = (send_response request body success message ;; run_alone k) s.
Proof.
  unfold send_response_t, send_response. cbn [run_alone]. unfold bind.
  destruct (incr_seq s) as [[[]|e] s1]; [|reflexivity].
  destruct (build_response request body success message s1) as [[r|e] s2];
    reflexivity.
Qed.

Lemma send_event_t_alone (event : pystr) (body : json) (k : thread) (s : state) :
  run_alone (send_event_t event body k) s
  = (send_event event body ;; run_alone k) s.
Proof.
  unfold send_event_t, send_event. cbn [run_alone]. unfold bind.
  destruct (incr_seq s) as [[[]|e] s1]; [|reflexivity].
  destruct (build_event event body s1) as [[r|e] s2]; reflexivity.
Qed.

(** With no other thread beside it, the thread of [handle_continue] does
    what the method does. *)
Lemma handle_continue_t_alone (turns : nat) (request args : json) (s : state) :
  run_alone (handle_continue_t turns request) s = handle_continue request args s.
Proof.
  unfold handle_continue_t, handle_continue. cbn [run_alone].
  apply bind_ext. intros _ s1. apply bind_ext. intros _ s2.
  rewrite send_response_t_alone. cbn [run_alone]. apply bind_ret_unit.
Qed.

(** With no other thread beside it, the watcher thread leaves the state
    that [_wait_for_stop] leaves. *)
Lemma wait_for_stop_t_alone (turns : nat) :
  forall s, snd (run_alone (_wait_for_stop_t turns) s)
            = snd (_wait_for_stop turns s).
Proof.
  induction turns as [|t IH]; intros s.
  - cbn [_wait_for_stop_t run_alone _wait_for_stop]. unfold ret. cbn [snd].
    symmetry. apply watching_reads_only.
  - rewrite wait_for_stop_unfold. cbn [_wait_for_stop_t run_alone].
    unfold bind at 1. destruct (watching s) as [[[|]|e] s1]; try reflexivity.
    cbn [run_alone]. unfold bind at 1.
    destruct (readline s1) as [[line|e] s2]; [|reflexivity].
    unfold watch_line.
    destruct (contains STOPPED line).
    + destruct (contains END_STEPPING line); [|destruct (contains EXITED line)];
        rewrite send_event_t_alone; cbn [run_alone]; unfold bind;
        match goal with
        | |- context [send_event ?ev ?b ?st] =>
            destruct (send_event_effect ev b st) as (s3 & -> & _)
        end; reflexivity.
    + rewrite IH.
      destruct (contains (lit "^running") line); [reflexivity|].
      destruct (contains (lit "*running") line); reflexivity.
Qed.

(** C6 fails on the code.  [handle_continue] starts the watcher before it
    sends its response (line 313, then line 314).  With a stop record
    already in the debugger's output, in the schedule below the watcher
    takes its steps between the start of the thread and the response:
    the client is sent the [stopped] event, numbered 1, before the
    response to its [continue], numbered 2. *)
Theorem continue_event_can_precede_response :
  wire (snd (run_schedule [0; 0; 1; 1; 1; 1; 1; 0; 0; 0]
                          [handle_continue_t 1 sample_continue] sample_stopping))
  = frames_on
      [(0, event_json 1 (lit "stopped") (stopped_body (lit "breakpoint")));
       (0, success_response 2 (JInt 7) (JStr (lit "continue"))
             (JDict [(lit "allThreadsContinued", JBool true)]))].
Proof. vm_compute. reflexivity. Qed.

(** C3 fails on the code.  Nothing keeps the handler thread and the
    watcher thread apart between the increment of the counter, the
    reading of it into the message, and the write to the socket.  While
    the handler answers a [threads] request and the watcher reports a
    stop: in the first schedule the watcher numbers its event 1, the
    handler then numbers and sends its response 2, and the event goes out
    after it, so the numbers on the wire go down; in the second schedule
    both threads advance the counter before either reads it, and both
    messages carry the number 2. *)
Theorem seq_can_repeat_or_go_down :
  wire (snd (run_schedule [1; 1; 1; 1; 0; 0; 0; 1]
                          [handle_threads_t sample_threads; _wait_for_stop_t 1]
                          sample_stopping))
  = frames_on
      [(0, success_response 2 (JInt 9) (JStr (lit "threads")) threads_body);
       (0, event_json 1 (lit "stopped") (stopped_body (lit "breakpoint")))]
  /\ wire (snd (run_schedule [1; 1; 1; 0; 0; 1; 0; 1]
                             [handle_threads_t sample_threads; _wait_for_stop_t 1]
                             sample_stopping))
     = frames_on
         [(0, success_response 2 (JInt 9) (JStr (lit "threads")) threads_body);
          (0, event_json 2 (lit "stopped") (stopped_body (lit "breakpoint")))].
Proof. split; vm_compute; reflexivity. Qed.

(** ** The theorems at work *)

Lemma concat_byte_by_byte (data : bytes) : List.concat (byte_by_byte data) = data.
Proof.
  unfold byte_by_byte. induction data as [|b data IH]; cbn; [reflexivity|].
  now rewrite IH.
Qed.

Lemma byte_by_byte_nonempty (data : bytes) :
  Forall (fun chunk => chunk <> []) (byte_by_byte data).
Proof.
  unfold byte_by_byte. induction data; cbn; constructor; auto. discriminate.
Qed.






(** On a socket that was closed, an event is lost and the counter still
    advances. *)
Lemma send_failure_witness :
  exists s', send_event (lit "terminated") JNull sample_hung_up = (Ok tt, s')
             /\ session s' = session (set_seq 1 sample_hung_up)
             /\ wire s' = wire sample_hung_up.
Proof.
  apply (proj1 (proj2 (proj2 send_failure_is_swallowed))
               (lit "terminated") JNull sample_hung_up).
  reflexivity.
Defined.
